(** * CoworkerApp: the chat client of [frontend/assets/js/main.js]

    A shallow embedding of the class [CoworkerApp]: its in-memory store of
    conversations ([this.chats], a JavaScript [Map]), the selection
    ([this.currentChatId]), the send guard ([this.isLoading]) and the
    asynchronous operations that synchronise them with the backend.

    Modelling choices.
    - An [async] method is a tree of synchronous steps and suspension points
      ([prog]): the JavaScript runtime runs a call until its first [await] on
      a network promise, and resumes the continuation when the promise
      settles.  Other calls may run while it is suspended.
    - [await fetch(..)] followed by [await response.json()] is one suspension
      point: the code between the two never reads or writes the application
      state.  Awaiting an [async] call that completes without a network
      request continues in the same turn.
    - [new Date()] and [Date.now()] read a clock of the environment; a date
      is its number of milliseconds (an integer), an invalid date is not
      modelled.
    - A string is a sequence of code units, restricted to the units below
      256.
    - Rendering and the other effects on the page are hooks recorded in a
      trace, together with the requests issued; the answer of a [confirm]
      dialog is an argument of the call. *)

From Stdlib Require Import ZArith List String Ascii Bool Lia DecimalString.
From Stdlib Require Import DecimalPos DecimalZ Relations Permutation Sorted.
Import ListNotations.
Open Scope string_scope.
Open Scope list_scope.
Open Scope Z_scope.

(** ** Strings *)

Module Str.

(** The white space of [String.prototype.trim] among the code units below 256:
    TAB, LF, VT, FF, CR, SPACE and NBSP. *)
Definition is_space (c : ascii) : bool :=
  let n := nat_of_ascii c in
  (Nat.eqb n 9 || Nat.eqb n 10 || Nat.eqb n 11 || Nat.eqb n 12 ||
   Nat.eqb n 13 || Nat.eqb n 32 || Nat.eqb n 160)%bool.

Fixpoint drop_spaces (l : list ascii) : list ascii :=
  match l with
  | c :: l' => if is_space c then drop_spaces l' else l
  | [] => []
  end.

(** [s.trim()] *)
Definition trim (s : string) : string :=
  string_of_list_ascii
    (rev (drop_spaces (rev (drop_spaces (list_ascii_of_string s))))).

(** A string in a boolean context: only the empty string is falsy. *)
Definition truthy (s : string) : bool := negb (String.eqb s "").

(** [String(n)] for an integer [n], as in a template literal. *)
Definition of_Z (n : Z) : string := NilZero.string_of_int (Z.to_int n).

End Str.

(** The value of an optional string property when it is truthy. *)
Definition truthy_value (x : option string) : option string :=
  match x with
  | Some s => if Str.truthy s then Some s else None
  | None => None
  end.

(** ** Data model *)

Inductive msg_type : Type := user | ai.

Record Message : Type := mkMessage {
  type : msg_type;
  content : string;
  timestamp : Z
}.

Record Chat : Type := mkChat {
  id : string;
  title : string;
  messages : list Message;
  createdAt : Z;
  updatedAt : Z;
  lastMessage : option string
}.

Definition set_messages (ms : list Message) (c : Chat) : Chat :=
  mkChat (id c) (title c) ms (createdAt c) (updatedAt c) (lastMessage c).

Definition set_title (t : string) (c : Chat) : Chat :=
  mkChat (id c) t (messages c) (createdAt c) (updatedAt c) (lastMessage c).

Definition set_updatedAt (t : Z) (c : Chat) : Chat :=
  mkChat (id c) (title c) (messages c) (createdAt c) t (lastMessage c).

(** *** The JavaScript [Map]: keys in insertion order *)

Module JsMap.

Definition t : Type := list (string * Chat).

Fixpoint get (k : string) (m : t) : option Chat :=
  match m with
  | [] => None
  | (k', v) :: m' => if String.eqb k' k then Some v else get k m'
  end.

(** [m.set(k, v)]: an existing key keeps its place, a new key goes last. *)
Fixpoint set (k : string) (v : Chat) (m : t) : t :=
  match m with
  | [] => [(k, v)]
  | (k', v') :: m' => if String.eqb k' k then (k, v) :: m' else (k', v') :: set k v m'
  end.

(** [m.delete(k)] *)
Fixpoint delete (k : string) (m : t) : t :=
  match m with
  | [] => []
  | (k', v') :: m' => if String.eqb k' k then m' else (k', v') :: delete k m'
  end.

Definition keys (m : t) : list string := map fst m.
Definition values (m : t) : list Chat := map snd m.
Definition size (m : t) : nat := List.length m.

(** A property mutation on the object stored under [k]
    ([const chat = m.get(k); chat.f = ...]): the entry keeps its place. *)
Fixpoint update (k : string) (f : Chat -> Chat) (m : t) : t :=
  match m with
  | [] => []
  | (k', v) :: m' => if String.eqb k' k then (k', f v) :: m' else (k', v) :: update k f m'
  end.

End JsMap.

(** *** The application object and the part of the page it reads *)

Record App : Type := mkApp {
  currentChatId : option string;
  chats : JsMap.t;
  chatCounter : Z;
  isLoading : bool;
  userMemory : list (string * string);
  isInitialized : bool;
  input : string;          (* document.getElementById("messageInput").value *)
  innerWidth : Z           (* window.innerWidth *)
}.

Definition set_currentChatId (x : option string) (a : App) : App :=
  mkApp x (chats a) (chatCounter a) (isLoading a) (userMemory a)
        (isInitialized a) (input a) (innerWidth a).
Definition set_chats (x : JsMap.t) (a : App) : App :=
  mkApp (currentChatId a) x (chatCounter a) (isLoading a) (userMemory a)
        (isInitialized a) (input a) (innerWidth a).
Definition set_chatCounter (x : Z) (a : App) : App :=
  mkApp (currentChatId a) (chats a) x (isLoading a) (userMemory a)
        (isInitialized a) (input a) (innerWidth a).
Definition set_isLoading (x : bool) (a : App) : App :=
  mkApp (currentChatId a) (chats a) (chatCounter a) x (userMemory a)
        (isInitialized a) (input a) (innerWidth a).
Definition set_userMemory (x : list (string * string)) (a : App) : App :=
  mkApp (currentChatId a) (chats a) (chatCounter a) (isLoading a) x
        (isInitialized a) (input a) (innerWidth a).
Definition set_isInitialized (x : bool) (a : App) : App :=
  mkApp (currentChatId a) (chats a) (chatCounter a) (isLoading a)
        (userMemory a) x (input a) (innerWidth a).
Definition set_input (x : string) (a : App) : App :=
  mkApp (currentChatId a) (chats a) (chatCounter a) (isLoading a)
        (userMemory a) (isInitialized a) x (innerWidth a).

(** [this.chats.get(this.currentChatId)]; [get(null)] is [undefined]. *)
Definition currentChat (a : App) : option Chat :=
  match currentChatId a with
  | Some k => JsMap.get k (chats a)
  | None => None
  end.

(** [this.currentChatId === chatId] *)
Definition is_current (a : App) (chatId : string) : bool :=
  match currentChatId a with
  | Some k => String.eqb k chatId
  | None => false
  end.

(** ** The backend contract *)

Inductive request : Type :=
| GET_chats
| GET_chat_history (chatId : string)
| POST_chat (chat_id title : string)
| DELETE_chat (chatId : string)
| POST_ask (query : string) (chat_id : option string)
| GET_user_memory.

(** One element of [data.chats]; [None] is an absent field, and a date is
    given by its milliseconds. *)
Record chat_row : Type := mkChatRow {
  row_id : string;
  row_title : option string;
  row_created_at : option Z;
  row_updated_at : option Z;
  row_last_message : option string
}.

(** One element of [data.history]. *)
Record history_row : Type := mkHistoryRow {
  row_role : string;
  row_content : option string;
  row_timestamp : option Z;
  row_msg_created_at : option Z
}.

(** The parsed body of a response.  An option field is [None] when the
    property is absent, and for [j_chats] and [j_history] also when it is not
    an array; [j_success] is the truthiness of [data.success]. *)
Record json : Type := mkJson {
  j_chats : option (list chat_row);
  j_history : option (list history_row);
  j_success : bool;
  j_response : option string;
  j_error : option string;
  j_memory : option (list (string * string))
}.

Definition empty_json : json := mkJson None None false None None None.

(** How a request ends: [fetch] rejects (transport failure), or it resolves
    with [response.ok] and a body; the body is [None] when
    [response.json()] rejects or yields [null]. *)
Inductive fetch_result : Type :=
| Rejected
| Resolved (ok : bool) (data : option json).

(** ** Presentation hooks and the observable trace *)

Inductive hook : Type :=
| UpdateChatTitle
| RenderChatList
| RenderMessages
| UpdateSendButton
| ShowLoader
| HideLoader
| CloseSidebar
| ShowAppLoading
| HideAppLoading
| FocusInput
| ShowError (message : string).

Inductive event : Type :=
| EvFetch (r : request)
| EvHook (h : hook).

(** The world: the application, the clock of the environment ([clock n] is
    the value of the [n]-th reading) and the trace so far. *)
Record world : Type := mkWorld {
  app : App;
  clock : nat -> Z;
  reads : nat;
  trace : list event
}.

(** ** Asynchronous programs *)

(** Outcome of [await Promise.all(..)]: all fulfilled, or rejected. *)
Inductive all_result : Type := AllFulfilled | AnyRejected.

Inductive prog (A : Type) : Type :=
| Ret (a : A)
| GetApp (k : App -> prog A)
| SetApp (a : App) (k : prog A)
| DateNow (k : Z -> prog A)
| Hook (h : hook) (k : prog A)
| Await (r : request) (k : fetch_result -> prog A)
| AwaitAll (rs : list request) (k : all_result -> prog A)
| Spawn (p : prog unit) (k : prog A).

Arguments Ret {A} a.
Arguments GetApp {A} k.
Arguments SetApp {A} a k.
Arguments DateNow {A} k.
Arguments Hook {A} h k.
Arguments Await {A} r k.
Arguments AwaitAll {A} rs k.
Arguments Spawn {A} p k.

Fixpoint bind {A B : Type} (p : prog A) (f : A -> prog B) : prog B :=
  match p with
  | Ret a => f a
  | GetApp k => GetApp (fun s => bind (k s) f)
  | SetApp a k => SetApp a (bind k f)
  | DateNow k => DateNow (fun t => bind (k t) f)
  | Hook h k => Hook h (bind k f)
  | Await r k => Await r (fun x => bind (k x) f)
  | AwaitAll rs k => AwaitAll rs (fun x => bind (k x) f)
  | Spawn q k => Spawn q (bind k f)
  end.

Declare Scope prog_scope.
Delimit Scope prog_scope with prog.
Notation "x <- p ;; q" := (bind p (fun x => q))
  (at level 61, p at next level, right associativity) : prog_scope.
Notation "p ;; q" := (bind p (fun _ => q))
  (at level 61, right associativity) : prog_scope.
Open Scope prog_scope.

Definition get_app : prog App := GetApp (fun a => Ret a).
Definition modify (f : App -> App) : prog unit :=
  GetApp (fun a => SetApp (f a) (Ret tt)).
Definition now : prog Z := DateNow (fun t => Ret t).
Definition call_hook (h : hook) : prog unit := Hook h (Ret tt).
Definition fetch (r : request) : prog fetch_result := Await r (fun x => Ret x).
Definition promise_all (rs : list request) : prog all_result :=
  AwaitAll rs (fun x => Ret x).
(** A call of an [async] method whose promise is not awaited. *)
Definition spawn (p : prog unit) : prog unit := Spawn p (Ret tt).

(** *** Running a call up to its suspension *)

(** What a suspended call waits for.  In [WAll] each request carries whether
    it is already fulfilled. *)
Inductive waiting (A : Type) : Type :=
| WFetch (r : request) (k : fetch_result -> prog A)
| WAll (slots : list (request * bool)) (k : all_result -> prog A).

Arguments WFetch {A} r k.
Arguments WAll {A} slots k.

Inductive status (A : Type) : Type :=
| Finished (a : A)
| Blocked (wt : waiting A).

Arguments Finished {A} a.
Arguments Blocked {A} wt.

Definition log (e : event) (w : world) : world :=
  mkWorld (app w) (clock w) (reads w) (trace w ++ [e]).
Definition log_all (es : list event) (w : world) : world :=
  mkWorld (app w) (clock w) (reads w) (trace w ++ es).
Definition put_app (a : App) (w : world) : world :=
  mkWorld a (clock w) (reads w) (trace w).
Definition tick (w : world) : world :=
  mkWorld (app w) (clock w) (S (reads w)) (trace w).

(** [run p w]: the world when [p] returns or suspends, the unawaited calls it
    left suspended, and its own status. *)
Fixpoint run {A : Type} (p : prog A) (w : world)
  : world * list (waiting unit) * status A :=
  match p with
  | Ret a => (w, [], Finished a)
  | GetApp k => run (k (app w)) w
  | SetApp a k => run k (put_app a w)
  | DateNow k => run (k (clock w (reads w))) (tick w)
  | Hook h k => run k (log (EvHook h) w)
  | Await r k => (log (EvFetch r) w, [], Blocked (WFetch r k))
  | AwaitAll rs k =>
      match rs with
      | [] => run (k AllFulfilled) w
      | _ :: _ =>
          (log_all (map EvFetch rs) w, [],
           Blocked (WAll (map (fun r => (r, false)) rs) k))
      end
  | Spawn q k =>
      let '(w1, sp1, st1) := run q w in
      let own := match st1 with Finished _ => [] | Blocked wt => [wt] end in
      let '(w2, sp2, st2) := run k w1 in
      (w2, sp1 ++ own ++ sp2, st2)
  end.

(** ** The methods of [CoworkerApp] *)

Definition error_connect : string :=
  "Sorry, I couldn't connect to the server. Please check your connection and try again.".
Definition error_generic : string :=
  "Sorry, I encountered an error. Please try again.".

(** [forceUIUpdate()] *)
Definition forceUIUpdate : prog unit :=
  call_hook UpdateChatTitle ;;
  call_hook RenderChatList ;;
  call_hook RenderMessages.

(** [if (window.innerWidth <= 768) this.closeSidebar()] *)
Definition closeSidebarOnMobile : prog unit :=
  a <- get_app ;;
  if innerWidth a <=? 768 then call_hook CloseSidebar else Ret tt.

(** [clearInput()]; the character counter it refreshes is presentation. *)
Definition clearInput : prog unit := modify (set_input "").

(** [loadUserMemory()] *)
Definition loadUserMemory : prog unit :=
  res <- fetch GET_user_memory ;;
  match res with
  | Rejected => Ret tt
  | Resolved false _ => Ret tt
  | Resolved true None => Ret tt
  | Resolved true (Some data) =>
      modify (set_userMemory
                (match j_memory data with Some m => m | None => [] end))
  end.

(** [new Date(x || Date.now())]: the clock is read only for a falsy [x]. *)
Definition date_or_now (x : option Z) : prog Z :=
  match x with
  | Some t => Ret t
  | None => now
  end.

(** The [forEach] of [loadChatsFromBackend]. *)
Fixpoint hydrate (rows : list chat_row) : prog unit :=
  match rows with
  | [] => Ret tt
  | row :: rest =>
      c <- date_or_now (row_created_at row) ;;
      u <- date_or_now (row_updated_at row) ;;
      modify (fun a =>
        set_chats
          (JsMap.set (row_id row)
             (mkChat (row_id row)
                (match truthy_value (row_title row) with
                 | Some t => t
                 | None => "Untitled Chat"
                 end)
                [] c u
                (Some (match truthy_value (row_last_message row) with
                       | Some m => m
                       | None => "No messages yet"
                       end)))
             (chats a))
          a) ;;
      hydrate rest
  end.

(** [loadChatsFromBackend()] *)
Definition loadChatsFromBackend : prog bool :=
  res <- fetch GET_chats ;;
  match res with
  | Rejected => Ret false
  | Resolved false _ => Ret false
  | Resolved true None => Ret false
  | Resolved true (Some data) =>
      match j_chats data with
      | Some rows =>
          modify (set_chats []) ;;
          hydrate rows ;;
          Ret true
      | None => Ret false
      end
  end.

(** The callback of [data.history.map] in [loadChatHistory]. *)
Definition history_message (row : history_row) : prog Message :=
  t <- match row_timestamp row with
       | Some t => Ret t
       | None => date_or_now (row_msg_created_at row)
       end ;;
  Ret (mkMessage
         (if String.eqb (row_role row) "user" then user else ai)
         (match row_content row with Some c => c | None => "" end)
         t).

Fixpoint history_messages (rows : list history_row) : prog (list Message) :=
  match rows with
  | [] => Ret []
  | row :: rest =>
      m <- history_message row ;;
      ms <- history_messages rest ;;
      Ret (m :: ms)
  end.

(** [loadChatHistory(chatId)] from the settlement of the request on. *)
Definition loadChatHistory_resume (chatId : string) (res : fetch_result)
  : prog bool :=
  match res with
  | Rejected => Ret false
  | Resolved false _ => Ret false
  | Resolved true None => Ret false
  | Resolved true (Some data) =>
      match j_history data with
      | Some rows =>
          a <- get_app ;;
          match JsMap.get chatId (chats a) with
          | Some _ =>
              ms <- history_messages rows ;;
              modify (fun a =>
                set_chats (JsMap.update chatId (set_messages ms) (chats a)) a) ;;
              Ret true
          | None => Ret false
          end
      | None => Ret true
      end
  end.

(** [loadChatHistory(chatId)] *)
Definition loadChatHistory (chatId : string) : prog bool :=
  if String.eqb chatId "" then Ret false
  else
    res <- fetch (GET_chat_history chatId) ;;
    loadChatHistory_resume chatId res.

(** The end of [switchToChat(chatId)]: select, render, close the sidebar. *)
Definition switchToChat_finish (chatId : string) : prog unit :=
  modify (set_currentChatId (Some chatId)) ;;
  forceUIUpdate ;;
  closeSidebarOnMobile.

(** [switchToChat(chatId)] *)
Definition switchToChat (chatId : string) : prog unit :=
  a <- get_app ;;
  if is_current a chatId then Ret tt
  else
    match JsMap.get chatId (chats a) with
    | Some chat =>
        if Nat.eqb (List.length (messages chat)) 0
        then (_ <- loadChatHistory chatId ;; Ret tt)
        else Ret tt
    | None => Ret tt
    end ;;
    switchToChat_finish chatId.

Definition new_title : string := "New Conversation".

(** [createNewChat()] from the settlement of the request on. *)
Definition createNewChat_resume (chatId : string) (res : fetch_result)
  : prog unit :=
  match res with
  | Rejected => call_hook (ShowError "Failed to create new chat")
  | Resolved _ None => call_hook (ShowError "Failed to create new chat")
  | Resolved _ (Some data) =>
      if j_success data then
        c <- now ;;
        u <- now ;;
        modify (fun a =>
          set_currentChatId (Some chatId)
            (set_chats
               (JsMap.set chatId (mkChat chatId new_title [] c u None) (chats a))
               a)) ;;
        forceUIUpdate ;;
        clearInput ;;
        closeSidebarOnMobile
      else call_hook (ShowError "Failed to create new chat")
  end.

(** The id of [createNewChat]: [`chat_${Date.now()}_${this.chatCounter++}`] *)
Definition new_chat_id (t counter : Z) : string :=
  ("chat_" ++ Str.of_Z t ++ "_" ++ Str.of_Z counter)%string.

(** [createNewChat()] *)
Definition createNewChat : prog unit :=
  t <- now ;;
  a <- get_app ;;
  let chatId := new_chat_id t (chatCounter a) in
  modify (set_chatCounter (chatCounter a + 1)) ;;
  res <- fetch (POST_chat chatId new_title) ;;
  createNewChat_resume chatId res.

(** [addMessageLocally(type, content)] *)
Definition addMessageLocally (ty : msg_type) (text : string) : prog unit :=
  a <- get_app ;;
  match currentChatId a with
  | None => Ret tt
  | Some cid =>
      match JsMap.get cid (chats a) with
      | None => Ret tt
      | Some _ =>
          t <- now ;;
          modify (fun a =>
            set_chats
              (JsMap.update cid
                 (fun c => set_messages (messages c ++ [mkMessage ty text t]) c)
                 (chats a))
              a) ;;
          u <- now ;;
          modify (fun a =>
            set_chats (JsMap.update cid (set_updatedAt u) (chats a)) a) ;;
          call_hook RenderMessages ;;
          call_hook RenderChatList
      end
  end.

(** The title of [updateChatTitleFromFirstMessage]. *)
Definition derive_title (firstMessage : string) : string :=
  if (40 <? String.length firstMessage)%nat
  then (String.substring 0 40 firstMessage ++ "...")%string
  else firstMessage.

(** [updateChatTitleFromFirstMessage(firstMessage)] *)
Definition updateChatTitleFromFirstMessage (firstMessage : string) : prog unit :=
  a <- get_app ;;
  match currentChatId a with
  | None => Ret tt
  | Some cid =>
      match JsMap.get cid (chats a) with
      | None => Ret tt
      | Some chat =>
          if (2 <? List.length (messages chat))%nat then Ret tt
          else
            let title := derive_title firstMessage in
            modify (fun a =>
              set_chats (JsMap.update cid (set_title title) (chats a)) a) ;;
            _ <- fetch (POST_chat cid title) ;;
            call_hook UpdateChatTitle ;;
            call_hook RenderChatList
      end
  end.

(** [sendMessage()] from the settlement of the exchange request on. *)
Definition sendMessage_resume (message : string) (res : fetch_result)
  : prog unit :=
  match res with
  | Rejected =>
      call_hook HideLoader ;;
      addMessageLocally ai error_connect
  | Resolved _ None =>
      call_hook HideLoader ;;
      addMessageLocally ai error_connect
  | Resolved ok (Some data) =>
      call_hook HideLoader ;;
      match (if ok then truthy_value (j_response data) else None) with
      | Some reply =>
          addMessageLocally ai reply ;;
          spawn (updateChatTitleFromFirstMessage message) ;;
          loadUserMemory
      | None =>
          addMessageLocally ai
            (match truthy_value (j_error data) with
             | Some e => e
             | None => error_generic
             end)
      end
  end ;;
  modify (set_isLoading false) ;;
  call_hook UpdateSendButton ;;
  call_hook FocusInput.

(** [sendMessage()] *)
Definition sendMessage : prog unit :=
  a <- get_app ;;
  let message := Str.trim (input a) in
  if (negb (Str.truthy message) || isLoading a)%bool then Ret tt
  else
    modify (set_isLoading true) ;;
    call_hook UpdateSendButton ;;
    addMessageLocally user message ;;
    clearInput ;;
    call_hook ShowLoader ;;
    a1 <- get_app ;;
    res <- fetch (POST_ask message (currentChatId a1)) ;;
    sendMessage_resume message res.

(** [deleteChat(chatId)] from the settlement of the request on. *)
Definition deleteChat_resume (chatId : string) (res : fetch_result)
  : prog unit :=
  match res with
  | Rejected => call_hook (ShowError "Failed to delete chat")
  | Resolved _ None => call_hook (ShowError "Failed to delete chat")
  | Resolved _ (Some data) =>
      if j_success data then
        modify (fun a => set_chats (JsMap.delete chatId (chats a)) a) ;;
        a <- get_app ;;
        (if is_current a chatId then
           match JsMap.values (chats a) with
           | first :: _ =>
               modify (set_currentChatId (Some (id first))) ;;
               switchToChat (id first)
           | [] => createNewChat
           end
         else Ret tt) ;;
        forceUIUpdate
      else call_hook (ShowError "Failed to delete chat")
  end.

(** [deleteChat(chatId)]; [confirmed] is the answer of the [confirm] dialog. *)
Definition deleteChat (chatId : string) (confirmed : bool) : prog unit :=
  if confirmed then
    res <- fetch (DELETE_chat chatId) ;;
    deleteChat_resume chatId res
  else Ret tt.

(** [clearAllChats()] from the settlement of [Promise.all] on. *)
Definition clearAllChats_resume (res : all_result) : prog unit :=
  match res with
  | AllFulfilled =>
      modify (set_chats []) ;;
      modify (set_chatCounter 1) ;;
      createNewChat
  | AnyRejected => call_hook (ShowError "Failed to clear all chats")
  end.

(** [clearAllChats()] *)
Definition clearAllChats (confirmed : bool) : prog unit :=
  if confirmed then
    a <- get_app ;;
    res <- promise_all (map DELETE_chat (JsMap.keys (chats a))) ;;
    clearAllChats_resume res
  else Ret tt.

(** [Array.prototype.sort] with the comparator
    [(a, b) => b.updatedAt - a.updatedAt]; the sort is stable. *)
Fixpoint insert_by_recency (x : Chat) (l : list Chat) : list Chat :=
  match l with
  | [] => [x]
  | y :: l' =>
      if 0 <? updatedAt y - updatedAt x
      then y :: insert_by_recency x l'
      else x :: l
  end.

Definition sort_by_recency (l : list Chat) : list Chat :=
  fold_right insert_by_recency [] l.

(** [initializeApp()] *)
Definition initializeApp : prog unit :=
  call_hook ShowAppLoading ;;
  loadUserMemory ;;
  chatsLoaded <- loadChatsFromBackend ;;
  a <- get_app ;;
  (if (negb chatsLoaded || Nat.eqb (JsMap.size (chats a)) 0)%bool
   then createNewChat
   else
     match sort_by_recency (JsMap.values (chats a)) with
     | mostRecentChat :: _ =>
         modify (set_currentChatId (Some (id mostRecentChat))) ;;
         _ <- loadChatHistory (id mostRecentChat) ;;
         forceUIUpdate
     | [] =>
         (* [sortedChats[0]] is undefined: the catch block *)
         call_hook (ShowError "Failed to initialize app. Creating new chat...") ;;
         createNewChat
     end) ;;
  modify (set_isInitialized true) ;;
  call_hook HideAppLoading.

(** *** Relative time *)

Section FormatTime.

(** [date.toLocaleDateString()] depends on the locale of the browser. *)
Variable toLocaleDateString : Z -> string.

(** [formatTime(date)], with [now_ms] the value of [new Date()]. *)
Definition formatTime (now_ms date : Z) : string :=
  let diffMs := now_ms - date in
  let diffMins := diffMs / 60000 in
  let diffHours := diffMs / 3600000 in
  let diffDays := diffMs / 86400000 in
  if diffMins <? 1 then "Now"
  else if diffMins <? 60 then (Str.of_Z diffMins ++ "m ago")%string
  else if diffHours <? 24 then (Str.of_Z diffHours ++ "h ago")%string
  else if diffDays <? 7 then (Str.of_Z diffDays ++ "d ago")%string
  else toLocaleDateString date.

End FormatTime.

(** ** The event loop *)

(** A configuration: the world and the suspended calls. *)
Record config : Type := mkConfig {
  cworld : world;
  pool : list (waiting unit);
  abandoned : list request   (* in flight, and no call waits for them *)
}.

(** What happens next: the user acts, or a request of a suspended call
    settles ([task] is the position of the call in the pool, [slot] the
    position of the request in its [Promise.all], 0 for a single fetch). *)
Inductive action : Type :=
| CallInit
| CallSwitch (chatId : string)
| CallNewChat
| CallSend
| CallDelete (chatId : string) (confirmed : bool)
| CallClearAll (confirmed : bool)
| TypeInput (text : string)
| Settle (task slot : nat) (res : fetch_result).

Definition own_waiting {A : Type} (st : status A) : list (waiting A) :=
  match st with
  | Finished _ => []
  | Blocked wt => [wt]
  end.

(** Run a call from the current world; what it leaves suspended joins the
    pool. *)
Definition start (p : prog unit) (c : config) : config :=
  let '(w, sp, st) := run p (cworld c) in
  mkConfig w (pool c ++ sp ++ own_waiting st) (abandoned c).

Fixpoint remove_nth {A : Type} (n : nat) (l : list A) : list A :=
  match n, l with
  | _, [] => []
  | O, _ :: l' => l'
  | S n', x :: l' => x :: remove_nth n' l'
  end.

Fixpoint replace_nth {A : Type} (n : nat) (y : A) (l : list A) : list A :=
  match n, l with
  | _, [] => []
  | O, _ :: l' => y :: l'
  | S n', x :: l' => x :: replace_nth n' y l'
  end.

Fixpoint fulfil (slot : nat) (slots : list (request * bool))
  : list (request * bool) :=
  match slot, slots with
  | _, [] => []
  | O, (r, _) :: l' => (r, true) :: l'
  | S n', x :: l' => x :: fulfil n' l'
  end.

(** The requests a suspended call still waits for. *)
Definition awaited {A : Type} (wt : waiting A) : list request :=
  match wt with
  | WFetch r _ => [r]
  | WAll slots _ => map fst (filter (fun s => negb (snd s)) slots)
  end.

(** A request settles.  [Promise.all] rejects with the first rejection,
    whatever the state of the other requests, and is fulfilled when the last
    request is. *)
Definition settle (task slot : nat) (res : fetch_result) (c : config) : config :=
  match nth_error (pool c) task with
  | None => c
  | Some (WFetch _ k) =>
      start (k res)
        (mkConfig (cworld c) (remove_nth task (pool c)) (abandoned c))
  | Some (WAll slots k) =>
      match res with
      | Rejected =>
          start (k AnyRejected)
            (mkConfig (cworld c) (remove_nth task (pool c))
               (abandoned c ++
                map fst (filter (fun s => negb (snd s)) (remove_nth slot slots))))
      | Resolved _ _ =>
          let slots' := fulfil slot slots in
          if forallb snd slots'
          then start (k AllFulfilled)
                 (mkConfig (cworld c) (remove_nth task (pool c)) (abandoned c))
          else mkConfig (cworld c) (replace_nth task (WAll slots' k) (pool c))
                 (abandoned c)
      end
  end.

Definition perform (c : config) (a : action) : config :=
  match a with
  | CallInit => start initializeApp c
  | CallSwitch chatId => start (switchToChat chatId) c
  | CallNewChat => start createNewChat c
  | CallSend => start sendMessage c
  | CallDelete chatId confirmed => start (deleteChat chatId confirmed) c
  | CallClearAll confirmed => start (clearAllChats confirmed) c
  | TypeInput text =>
      mkConfig (put_app (set_input text (app (cworld c))) (cworld c)) (pool c)
        (abandoned c)
  | Settle task slot res => settle task slot res c
  end.

Definition exec (actions : list action) (c : config) : config :=
  fold_left perform actions c.

(** The fields of [this] after the constructor. *)
Definition new_app (width : Z) : App :=
  mkApp None [] 1 false [] false "" width.

Definition boot (clk : nat -> Z) (width : Z) : config :=
  mkConfig (mkWorld (new_app width) clk 0 []) [] [].

(** *** Observations *)

Definition request_eqb (r1 r2 : request) : bool :=
  match r1, r2 with
  | GET_chats, GET_chats => true
  | GET_chat_history a, GET_chat_history b => String.eqb a b
  | POST_chat a t, POST_chat b u => (String.eqb a b && String.eqb t u)%bool
  | DELETE_chat a, DELETE_chat b => String.eqb a b
  | POST_ask q a, POST_ask r b =>
      (String.eqb q r &&
       match a, b with
       | Some x, Some y => String.eqb x y
       | None, None => true
       | _, _ => false
       end)%bool
  | GET_user_memory, GET_user_memory => true
  | _, _ => false
  end.

(** The requests issued so far, in order. *)
Fixpoint fetches (tr : list event) : list request :=
  match tr with
  | [] => []
  | EvFetch r :: tr' => r :: fetches tr'
  | EvHook _ :: tr' => fetches tr'
  end.

(** The requests in flight that a call waits for. *)
Definition in_flight (c : config) : list request :=
  flat_map awaited (pool c).

Definition count_request (r : request) (l : list request) : nat :=
  List.length (filter (request_eqb r) l).

Definition json_success : json := mkJson None None true None None None.
Definition json_history (rows : list history_row) : json :=
  mkJson None (Some rows) false None None None.
Definition json_chats (rows : list chat_row) : json :=
  mkJson (Some rows) None false None None None.
Definition json_reply (text : string) : json :=
  mkJson None None false (Some text) None None.

(** ** Notions used by the statements *)

Definition map_waiting {A B : Type} (f : prog A -> prog B) (wt : waiting A)
  : waiting B :=
  match wt with
  | WFetch r k => WFetch r (fun x => f (k x))
  | WAll slots k => WAll slots (fun x => f (k x))
  end.

(** [p] returns [a] from [w] in [w'] without suspending or leaving a call
    behind. *)
Definition returns {A : Type} (p : prog A) (w w' : world) (a : A) : Prop :=
  run p w = (w', [], Finished a).

(** Every execution of [p] from [w] ends, and ends in a world satisfying
    [P], whatever the requests answer and whatever other calls do to the
    world while [p] is suspended. *)
Inductive settles {A : Type} (P : world -> A -> Prop)
  : prog A -> world -> Prop :=
| settles_finished (p : prog A) (w w' : world) (sp : list (waiting unit)) (a : A) :
    run p w = (w', sp, Finished a) -> P w' a -> settles P p w
| settles_fetch (p : prog A) (w w' : world) (sp : list (waiting unit))
                (r : request) (k : fetch_result -> prog A) :
    run p w = (w', sp, Blocked (WFetch r k)) ->
    (forall res w'', settles P (k res) w'') -> settles P p w
| settles_all (p : prog A) (w w' : world) (sp : list (waiting unit))
              (slots : list (request * bool)) (k : all_result -> prog A) :
    run p w = (w', sp, Blocked (WAll slots k)) ->
    (forall res w'', settles P (k res) w'') -> settles P p w.

(** The world in which a call returns or suspends. *)
Definition world_after {A : Type} (p : prog A) (w : world) : world :=
  fst (fst (run p w)).

(** The conversation [c] after [addMessageLocally(ty, text)], with [t] and
    [u] the two readings of the clock. *)
Definition appended (ty : msg_type) (text : string) (t u : Z) (c : Chat) : Chat :=
  set_updatedAt u (set_messages (messages c ++ [mkMessage ty text t]) c).

Definition after_append (ty : msg_type) (text : string) (cid : string)
           (w : world) : world :=
  mkWorld
    (set_chats
       (JsMap.update cid
          (appended ty text (clock w (reads w)) (clock w (S (reads w))))
          (chats (app w)))
       (app w))
    (clock w) (S (S (reads w)))
    (trace w ++ [EvHook RenderMessages; EvHook RenderChatList]).


(** What a message says, its timestamp apart. *)
Definition what (m : Message) : msg_type * string := (type m, content m).

(** The relative label as the specification words it: by thresholds on the
    elapsed milliseconds. *)
Definition relative_label (toLocaleDateString : Z -> string)
           (elapsed date : Z) : string :=
  if elapsed <? 60000 then "Now"
  else if elapsed <? 60 * 60000
       then (Str.of_Z (elapsed / 60000) ++ "m ago")%string
  else if elapsed <? 24 * 3600000
       then (Str.of_Z (elapsed / 3600000) ++ "h ago")%string
  else if elapsed <? 7 * 86400000
       then (Str.of_Z (elapsed / 86400000) ++ "d ago")%string
  else toLocaleDateString date.

(** *** Concrete worlds used by the examples *)

Definition tick_clock (n : nat) : Z := 1000 + Z.of_nat n.

Definition ok_json (j : json) : fetch_result := Resolved true (Some j).

(** *** Sending: the worlds and the outcomes of an exchange *)

Definition send_started (w : world) : world :=
  let message := Str.trim (input (app w)) in
  let w0 := log (EvHook UpdateSendButton) (put_app (set_isLoading true (app w)) w) in
  let w1 := world_after (addMessageLocally user message) w0 in
  log (EvFetch (POST_ask message (currentChatId (app w1))))
      (log (EvHook ShowLoader) (put_app (set_input "" (app w1)) w1)).

Definition send_finished (w : world) : world :=
  log (EvHook FocusInput)
    (log (EvHook UpdateSendButton) (put_app (set_isLoading false (app w)) w)).

Definition exchange_succeeded (res : fetch_result) : option string :=
  match res with
  | Resolved ok (Some data) => if ok then truthy_value (j_response data) else None
  | _ => None
  end.

Definition synthetic_reply (res : fetch_result) : string :=
  match res with
  | Resolved _ (Some data) =>
      match truthy_value (j_error data) with Some e => e | None => error_generic end
  | _ => error_connect
  end.

Definition reply_text (res : fetch_result) : string :=
  match exchange_succeeded res with
  | Some reply => reply
  | None => synthetic_reply res
  end.

Definition reply_appended (res : fetch_result) (w : world) : world :=
  world_after (addMessageLocally ai (reply_text res)) (log (EvHook HideLoader) w).

(** The application after [updateChatTitleFromFirstMessage(m)] has run up to
    its request. *)
Definition title_applied (m : string) (a : App) : App :=
  match currentChatId a with
  | Some cid =>
      match JsMap.get cid (chats a) with
      | Some c =>
          if (2 <? List.length (messages c))%nat then a
          else set_chats (JsMap.update cid (set_title (derive_title m)) (chats a)) a
      | None => a
      end
  | None => a
  end.

(** *** Switching: the continuation and the worlds *)

(** The rest of [switchToChat(chatId)] once the history request settled. *)
Definition switchToChat_resume (chatId : string) (res : fetch_result) : prog unit :=
  (_ <- loadChatHistory_resume chatId res ;; Ret tt) ;;
  switchToChat_finish chatId.

(** The world after [switchToChat_finish(chatId)]. *)
Definition switched (chatId : string) (w : world) : world :=
  let w1 :=
    log (EvHook RenderMessages)
      (log (EvHook RenderChatList)
         (log (EvHook UpdateChatTitle)
            (put_app (set_currentChatId (Some chatId) (app w)) w))) in
  if innerWidth (app w) <=? 768 then log (EvHook CloseSidebar) w1 else w1.

(** The world after the continuation of [loadChatHistory(chatId)]. *)
Definition loaded (chatId : string) (res : fetch_result) (w : world) : world :=
  world_after (loadChatHistory_resume chatId res) w.

(** The history a response carries, when [loadChatHistory] reads one. *)
Definition history_of (res : fetch_result) : option (list history_row) :=
  match res with
  | Resolved true (Some data) => j_history data
  | _ => None
  end.

(** What a row of the history says. *)
Definition row_what (row : history_row) : msg_type * string :=
  (if String.eqb (row_role row) "user" then user else ai,
   match row_content row with Some c => c | None => "" end).

(** *** Creating and clearing *)

(** Whether the backend confirmed a create or a delete: [data.success]. *)
Definition confirmed_by (res : fetch_result) : bool :=
  match res with
  | Resolved _ (Some data) => j_success data
  | _ => false
  end.

(** The world in which [createNewChat()] suspends. *)
Definition create_started (w : world) : world :=
  log (EvFetch (POST_chat (new_chat_id (clock w (reads w)) (chatCounter (app w)))
                          new_title))
    (put_app (set_chatCounter (chatCounter (app w) + 1) (app w)) (tick w)).

(** *** A client with three conversations *)

(** A listing of three conversations, [a] the most recently updated. *)
Definition listing3 : fetch_result :=
  ok_json (json_chats
    [mkChatRow "a" (Some "A") (Some 100) (Some 300) None;
     mkChatRow "b" (Some "B") (Some 100) (Some 100) None;
     mkChatRow "c" (Some "C") (Some 100) (Some 200) None]).

(** The client after its bootstrap on [listing3]; [history_a] is the history
    of [a] the backend answers. *)
Definition booted3 (history_a : list history_row) : config :=
  exec [CallInit; Settle 0 0 Rejected; Settle 0 0 listing3;
        Settle 0 0 (ok_json (json_history history_a))]
       (boot tick_clock 1024).

Definition hello_row : history_row := mkHistoryRow "user" (Some "hello") (Some 150) None.

(** *** The booted client, for the instances *)

(** The world of the booted client, [a] current with one message. *)
Definition world3 : world := cworld (booted3 [hello_row]).

Definition chat_a : Chat :=
  mkChat "a" "A" [mkMessage user "hello" 150] 100 300 (Some "No messages yet").

Definition chat_b : Chat :=
  mkChat "b" "B" [] 100 100 (Some "No messages yet").

(** The user types [text] in the input field. *)
Definition typing (text : string) (w : world) : world :=
  put_app (set_input text (app w)) w.


(** ** Notions used by the further properties *)

(** *** Write disciplines *)

(** A discipline on a program: every write of the application is related by
    [R] to the application it replaces, and every request satisfies [Q].
    [cur] is the application the program is known to run on, when it is
    known: a read makes it known, a suspension makes it unknown. *)
Fixpoint obeys {A : Type} (R : App -> App -> Prop) (Q : request -> Prop)
         (cur : option App) (p : prog A) : Prop :=
  match p with
  | Ret _ => True
  | GetApp k =>
      forall a, match cur with Some a0 => a = a0 | None => True end ->
                obeys R Q (Some a) (k a)
  | SetApp a k =>
      match cur with Some a0 => R a0 a | None => False end /\
      obeys R Q (Some a) k
  | DateNow k => forall t, obeys R Q cur (k t)
  | Hook _ k => obeys R Q cur k
  | Await r k => Q r /\ forall res, obeys R Q None (k res)
  | AwaitAll rs k => Forall Q rs /\ forall res, obeys R Q None (k res)
  | Spawn q k => obeys R Q cur q /\ obeys R Q None k
  end.

(** A suspended call whose request satisfies [Q] and whose continuation
    obeys the discipline, whatever the answer. *)
Definition obeys_waiting {A : Type} (R : App -> App -> Prop)
           (Q : request -> Prop) (wt : waiting A) : Prop :=
  match wt with
  | WFetch r k => Q r /\ forall res, obeys R Q None (k res)
  | WAll slots k => Forall Q (map fst slots) /\ forall res, obeys R Q None (k res)
  end.

(** The outcome of a run obeys the discipline: it is finished, or what it
    waits for does. *)
Definition obeys_status {A : Type} (R : App -> App -> Prop)
           (Q : request -> Prop) (st : status A) : Prop :=
  match st with
  | Finished _ => True
  | Blocked wt => obeys_waiting R Q wt
  end.

(** [cur], when known, is the application of [w]. *)
Definition known (cur : option App) (w : world) : Prop :=
  match cur with Some a0 => a0 = app w | None => True end.

(** The keys of the store are distinct and each conversation is stored under
    its own id. *)
Definition wf_store (m : JsMap.t) : Prop :=
  NoDup (JsMap.keys m) /\ Forall (fun kv => id (snd kv) = fst kv) m.

(** A write that keeps a well-formed store well formed. *)
Definition R_store (a a' : App) : Prop := wf_store (chats a) -> wf_store (chats a').

(** A write that keeps the send flag and a well-formed store. *)
Definition R_quiet (a a' : App) : Prop := isLoading a' = isLoading a /\ R_store a a'.

(** Any request but [POST /ask]. *)
Definition not_ask (r : request) : Prop :=
  match r with POST_ask _ _ => False | _ => True end.

(** *** One exchange at a time *)

(** [POST /ask], as a test. *)
Definition is_ask (r : request) : bool :=
  match r with POST_ask _ _ => true | _ => false end.

(** A suspended call that never writes the send flag and never issues an
    exchange request. *)
Definition quiet_waiting (wt : waiting unit) : Prop :=
  obeys_waiting R_quiet not_ask wt.

(** The last suspension of a send: whatever its request answers, the call
    ends and the flag is released. *)
Definition closing (wt : waiting unit) : Prop :=
  match wt with
  | WFetch r k =>
      not_ask r /\
      forall res w, exists w',
        run (k res) w = (w', [], Finished tt) /\ isLoading (app w') = false
  | WAll _ _ => False
  end.

(** A suspended send: when its request settles it either ends with the flag
    released, or keeps the flag and waits once more, for the last time. *)
Definition sender (wt : waiting unit) : Prop :=
  match wt with
  | WFetch r k =>
      forall res w, isLoading (app w) = true ->
        exists w' sp st,
          run (k res) w = (w', sp, st) /\
          Forall quiet_waiting sp /\
          match st with
          | Finished _ => isLoading (app w') = false
          | Blocked wt' => isLoading (app w') = true /\ closing wt'
          end
  | WAll _ _ => False
  end.

(** The send flag is down and no send is suspended, or it is up and exactly
    one is. *)
Definition single_flight (c : config) : Prop :=
  (isLoading (app (cworld c)) = false /\ Forall quiet_waiting (pool c)) \/
  (isLoading (app (cworld c)) = true /\
   exists l1 s l2,
     pool c = l1 ++ s :: l2 /\ sender s /\
     Forall quiet_waiting l1 /\ Forall quiet_waiting l2).

(** *** Recency and the listing (loadChatsFromBackend, initializeApp) *)

(** [c] was updated at [t]. *)
Definition updated_at (t : Z) (c : Chat) : bool := updatedAt c =? t.

(** [a] is at least as recent as [b]. *)
Definition at_least_as_recent (a b : Chat) : Prop := updatedAt b <= updatedAt a.

(** The listing a response carries, when [loadChatsFromBackend] reads one. *)
Definition listing_of (res : fetch_result) : option (list chat_row) :=
  match res with
  | Resolved true (Some data) => j_chats data
  | _ => None
  end.

(** The memory a response carries, when [loadUserMemory] reads one. *)
Definition memory_of (res : fetch_result) : option (list (string * string)) :=
  match res with
  | Resolved true (Some data) =>
      Some (match j_memory data with Some m => m | None => [] end)
  | _ => None
  end.

(** The conversation [hydrate] stores for a row, [c] and [u] its dates. *)
Definition hydrated_chat (row : chat_row) (c u : Z) : Chat :=
  mkChat (row_id row)
    (match truthy_value (row_title row) with
     | Some t => t
     | None => "Untitled Chat"
     end)
    [] c u
    (Some (match truthy_value (row_last_message row) with
           | Some m => m
           | None => "No messages yet"
           end)).

(** The store and the number of clock readings after [hydrate rows]. *)
Fixpoint hydrated (rows : list chat_row) (clk : nat -> Z) (n : nat)
         (m : JsMap.t) : JsMap.t * nat :=
  match rows with
  | [] => (m, n)
  | row :: rest =>
      let '(c, n1) := match row_created_at row with
                      | Some t => (t, n)
                      | None => (clk n, S n)
                      end in
      let '(u, n2) := match row_updated_at row with
                      | Some t => (t, n1)
                      | None => (clk n1, S n1)
                      end in
      hydrated rest clk n2 (JsMap.set (row_id row) (hydrated_chat row c u) m)
  end.

(** [loadUserMemory()] from the settlement of its request on. *)
Definition loadUserMemory_resume (res : fetch_result) : prog unit :=
  match res with
  | Rejected => Ret tt
  | Resolved false _ => Ret tt
  | Resolved true None => Ret tt
  | Resolved true (Some data) =>
      modify (set_userMemory
                (match j_memory data with Some m => m | None => [] end))
  end.

(** [loadChatsFromBackend()] from the settlement of its request on. *)
Definition loadChatsFromBackend_resume (res : fetch_result) : prog bool :=
  match res with
  | Rejected => Ret false
  | Resolved false _ => Ret false
  | Resolved true None => Ret false
  | Resolved true (Some data) =>
      match j_chats data with
      | Some rows =>
          modify (set_chats []) ;;
          hydrate rows ;;
          Ret true
      | None => Ret false
      end
  end.

(** The end of [initializeApp()]. *)
Definition initializeApp_finish : prog unit :=
  modify (set_isInitialized true) ;;
  call_hook HideAppLoading.

(** [initializeApp()] once the listing is known to be loaded or not. *)
Definition initializeApp_select (chatsLoaded : bool) : prog unit :=
  a <- get_app ;;
  (if (negb chatsLoaded || Nat.eqb (JsMap.size (chats a)) 0)%bool
   then createNewChat
   else
     match sort_by_recency (JsMap.values (chats a)) with
     | mostRecentChat :: _ =>
         modify (set_currentChatId (Some (id mostRecentChat))) ;;
         _ <- loadChatHistory (id mostRecentChat) ;;
         forceUIUpdate
     | [] =>
         call_hook (ShowError "Failed to initialize app. Creating new chat...") ;;
         createNewChat
     end) ;;
  initializeApp_finish.

(** [initializeApp()] from the settlement of the listing request on. *)
Definition initializeApp_listed (res : fetch_result) : prog unit :=
  chatsLoaded <- loadChatsFromBackend_resume res ;;
  initializeApp_select chatsLoaded.

(** [initializeApp()] from the settlement of the memory request on. *)
Definition initializeApp_remembered (res : fetch_result) : prog unit :=
  loadUserMemory_resume res ;;
  chatsLoaded <- loadChatsFromBackend ;;
  initializeApp_select chatsLoaded.

(** [initializeApp()] from the settlement of the history request on. *)
Definition initializeApp_loaded (chatId : string) (res : fetch_result) : prog unit :=
  (_ <- loadChatHistory_resume chatId res ;; forceUIUpdate) ;;
  initializeApp_finish.

(** [initializeApp()] from the settlement of the create request on. *)
Definition initializeApp_created (chatId : string) (res : fetch_result) : prog unit :=
  createNewChat_resume chatId res ;;
  initializeApp_finish.

(** The world after the continuation of [loadUserMemory()]. *)
Definition remembered (res : fetch_result) (w : world) : world :=
  match memory_of res with
  | Some m => put_app (set_userMemory m (app w)) w
  | None => w
  end.

(** The world after the continuation of [loadChatsFromBackend()]. *)
Definition listed (res : fetch_result) (w : world) : world :=
  match listing_of res with
  | Some rows =>
      mkWorld (set_chats (fst (hydrated rows (clock w) (reads w) [])) (app w))
              (clock w) (snd (hydrated rows (clock w) (reads w) [])) (trace w)
  | None => w
  end.

(** The world after [initializeApp_finish]. *)
Definition initialized (w : world) : world :=
  log (EvHook HideAppLoading) (put_app (set_isInitialized true (app w)) w).

(** The world after [forceUIUpdate()]. *)
Definition rendered (w : world) : world :=
  log (EvHook RenderMessages)
    (log (EvHook RenderChatList) (log (EvHook UpdateChatTitle) w)).

(** *** Identifiers *)

(** [c] occurs in [s]. *)
Fixpoint occurs (c : ascii) (s : string) : Prop :=
  match s with
  | EmptyString => False
  | String a s' => a = c \/ occurs c s'
  end.

(** *** Deleting the last conversation *)

(** The rest of [deleteChat] when it had to create a conversation. *)
Definition deleteChat_created (chatId : string) (res : fetch_result) : prog unit :=
  createNewChat_resume chatId res ;; forceUIUpdate.

(** *** The chat list (renderChatList) *)

(** What [renderChatList] interpolates in the markup of one entry: the id,
    whether the entry carries the class [active], the title, the snippet and
    the relative time.  The markup and its escaping are left out. *)
Record chat_entry : Type := mkEntry {
  entry_id : string;
  entry_active : bool;
  entry_title : string;
  entry_snippet : string;
  entry_time : string
}.

(** The snippet of an entry:
    [chat.lastMessage || (chat.messages.length > 0 ? last.content.substring(0, 60) + "..." : "Start a conversation...")] *)
Definition last_message_snippet (c : Chat) : string :=
  match truthy_value (lastMessage c) with
  | Some s => s
  | None =>
      if (0 <? List.length (messages c))%nat then
        match nth_error (messages c) (List.length (messages c) - 1) with
        | Some m => (String.substring 0 60 (content m) ++ "...")%string
        | None => ""
        end
      else "Start a conversation..."
  end.

Section ChatList.

Variable toLocaleDateString : Z -> string.

(** One iteration of the [forEach] of [renderChatList]. *)
Definition chat_entry_of (current : option string) (c : Chat) : prog chat_entry :=
  t <- now ;;
  Ret (mkEntry (id c)
         (match current with
          | Some k => String.eqb (id c) k
          | None => false
          end)
         (title c)
         (last_message_snippet c)
         (formatTime toLocaleDateString t (updatedAt c))).

(** The [forEach] of [renderChatList] over the sorted conversations. *)
Fixpoint chat_entries (current : option string) (cs : list Chat)
  : prog (list chat_entry) :=
  match cs with
  | [] => Ret []
  | c :: rest =>
      e <- chat_entry_of current c ;;
      es <- chat_entries current rest ;;
      Ret (e :: es)
  end.

(** [renderChatList()], as the list of its entries. *)
Definition renderChatList : prog (list chat_entry) :=
  a <- get_app ;;
  if Nat.eqb (JsMap.size (chats a)) 0 then Ret []
  else chat_entries (currentChatId a) (sort_by_recency (JsMap.values (chats a))).

End ChatList.

(** *** The send button (updateSendButton, updateCharacterCount) *)

(** [sendBtn.disabled] as [updateSendButton] sets it. *)
Definition updateSendButton_disabled (a : App) : bool :=
  (Nat.eqb (String.length (Str.trim (input a))) 0 || isLoading a)%bool.

(** The colours [updateCharacterCount] gives the counter. *)
Inductive counter_color : Type := danger_color | text_secondary | text_muted.

(** What [updateCharacterCount] writes: the counter text, [sendBtn.disabled]
    and the colour of the counter. *)
Record character_count : Type := mkCount {
  count_text : string;
  count_disabled : bool;
  count_color : counter_color
}.

(** [updateCharacterCount()] *)
Definition updateCharacterCount (a : App) : character_count :=
  let length := String.length (input a) in
  mkCount (Str.of_Z (Z.of_nat length) ++ "/2000")%string
          (Nat.eqb length 0 || isLoading a)%bool
          (if (1800 <? length)%nat then danger_color
           else if (1500 <? length)%nat then text_secondary
           else text_muted).

(** *** The theme (setupTheme, toggleTheme, updateThemeToggleText) *)

(** The part of the page the theme lives in: [document.body.className] and
    the item ["coworker-theme"] of [localStorage]. *)
Record theme_page : Type := mkThemePage {
  body_class : string;
  stored_theme : option string
}.

(** The separators of a class list: TAB, LF, FF, CR and SPACE. *)
Definition is_class_space (c : ascii) : bool :=
  let n := nat_of_ascii c in
  (Nat.eqb n 9 || Nat.eqb n 10 || Nat.eqb n 12 || Nat.eqb n 13 || Nat.eqb n 32)%bool.

(** The token read so far, when there is one. *)
Definition flush_token (acc : list ascii) : list string :=
  match acc with
  | [] => []
  | _ => [string_of_list_ascii (rev acc)]
  end.

(** The tokens of a class name; [acc] is the token being read, reversed. *)
Fixpoint class_tokens (l : list ascii) (acc : list ascii) : list string :=
  match l with
  | [] => flush_token acc
  | c :: l' =>
      if is_class_space c then flush_token acc ++ class_tokens l' []
      else class_tokens l' (c :: acc)
  end.

(** [document.body.classList.contains(token)] *)
Definition classList_contains (token className : string) : bool :=
  existsb (String.eqb token) (class_tokens (list_ascii_of_string className) []).

(** [toggleTheme()] *)
Definition toggleTheme (p : theme_page) : theme_page :=
  let isDark := classList_contains "dark-mode" (body_class p) in
  mkThemePage (if isDark then "light-mode" else "dark-mode")
              (Some (if isDark then "light" else "dark")).

(** [setupTheme()] *)
Definition setupTheme (p : theme_page) : theme_page :=
  let savedTheme :=
    match truthy_value (stored_theme p) with
    | Some s => s
    | None => "light"
    end in
  mkThemePage (savedTheme ++ "-mode")%string (stored_theme p).

(** [updateThemeToggleText()]: the class of the icon and the text of the
    button. *)
Definition updateThemeToggleText (p : theme_page) : string * string :=
  if classList_contains "dark-mode" (body_class p)
  then ("fas fa-sun", "Light Mode")
  else ("fas fa-moon", "Dark Mode").

(** *** Export and search (exportChat, searchChats) *)

(** [f] on every character of a string. *)
Fixpoint string_map (f : ascii -> ascii) (s : string) : string :=
  match s with
  | EmptyString => EmptyString
  | String c s' => String (f c) (string_map f s')
  end.

(** The class [[a-z0-9]] with the flag [i]. *)
Definition is_alnum (c : ascii) : bool :=
  let n := nat_of_ascii c in
  ((Nat.leb 48 n && Nat.leb n 57) ||
   (Nat.leb 65 n && Nat.leb n 90) ||
   (Nat.leb 97 n && Nat.leb n 122))%bool.

(** Every character of [s] satisfies [p]. *)
Fixpoint all_chars (p : ascii -> bool) (s : string) : bool :=
  match s with
  | EmptyString => true
  | String c s' => (p c && all_chars p s')%bool
  end.

(** [title.replace(/[^a-z0-9]/gi, "_")] *)
Definition sanitize_title (s : string) : string :=
  string_map (fun c => if is_alnum c then c else "_"%char) s.

(** What [exportChat] offers for download: the name of the file and the
    data it serialises ([exportedAt] as a date). *)
Record export_file : Type := mkExport {
  file_name : string;
  export_title : string;
  export_messages : list Message;
  exportedAt : Z
}.

(** [exportChat(chatId)] *)
Definition exportChat (chatId : string) : prog (option export_file) :=
  a <- get_app ;;
  match JsMap.get chatId (chats a) with
  | None => Ret None
  | Some chat =>
      t <- now ;;
      Ret (Some (mkExport
                   ("coworker-chat-" ++ sanitize_title (title chat) ++ ".json")%string
                   (title chat) (messages chat) t))
  end.

(** [c.toLowerCase()] for a code unit below 256. *)
Definition to_lower_char (c : ascii) : ascii :=
  let n := nat_of_ascii c in
  if ((Nat.leb 65 n && Nat.leb n 90) ||
      (Nat.leb 192 n && Nat.leb n 222 && negb (Nat.eqb n 215)))%bool
  then ascii_of_nat (n + 32)
  else c.

(** [s.toLowerCase()] *)
Definition toLowerCase (s : string) : string := string_map to_lower_char s.

(** [s.includes(t)] *)
Fixpoint includes (s t : string) : bool :=
  (String.prefix t s ||
   match s with
   | EmptyString => false
   | String _ s' => includes s' t
   end)%bool.

(** The decision of [searchChats(query)] for the entry of [chatId]: [None]
    when the store has no such conversation and the entry is left as it is,
    otherwise whether the entry is displayed. *)
Definition search_display (a : App) (query chatId : string) : option bool :=
  let searchTerm := toLowerCase query in
  match JsMap.get chatId (chats a) with
  | None => None
  | Some chat =>
      Some (includes (toLowerCase (title chat)) searchTerm ||
            existsb (fun msg => includes (toLowerCase (content msg)) searchTerm)
                    (messages chat))%bool
  end.

(** [searchChats(query)] over the entries of the list, given by their
    [data-chat-id]. *)
Definition searchChats (a : App) (query : string) (entries : list string)
  : list (string * option bool) :=
  map (fun chatId => (chatId, search_display a query chatId)) entries.

(** *** Further worlds used by the examples *)

(** The rows of [listing3]. *)
Definition rows3 : list chat_row :=
  [mkChatRow "a" (Some "A") (Some 100) (Some 300) None;
   mkChatRow "b" (Some "B") (Some 100) (Some 100) None;
   mkChatRow "c" (Some "C") (Some 100) (Some 200) None].

(** A world with the single conversation [a], which is current. *)
Definition world1 : world :=
  mkWorld (mkApp (Some "a") [("a", chat_a)] 2 false [] true "" 1024)
          tick_clock 3 [].

(** * Properties *)

(** ** Facts about the store *)

Module JsMapFacts.

Lemma get_update_same (k : string) (f : Chat -> Chat) (m : JsMap.t) :
  JsMap.get k (JsMap.update k f m) = option_map f (JsMap.get k m).
Proof.
  induction m as [|[k' v] m IH]; simpl; [reflexivity|].
  destruct (String.eqb k' k) eqn:E; simpl; rewrite E; auto.
Qed.

Lemma get_update_other (k k' : string) (f : Chat -> Chat) (m : JsMap.t) :
  k <> k' -> JsMap.get k' (JsMap.update k f m) = JsMap.get k' m.
Proof.
  intros Hne. induction m as [|[k0 v] m IH]; simpl; [reflexivity|].
  destruct (String.eqb k0 k) eqn:E; simpl.
  - apply String.eqb_eq in E. subst k0.
    destruct (String.eqb k k') eqn:E'; [|reflexivity].
    apply String.eqb_eq in E'. contradiction.
  - destruct (String.eqb k0 k'); auto.
Qed.

Lemma update_absent (k : string) (f : Chat -> Chat) (m : JsMap.t) :
  JsMap.get k m = None -> JsMap.update k f m = m.
Proof.
  induction m as [|[k' v] m IH]; simpl; [reflexivity|].
  destruct (String.eqb k' k); [discriminate|].
  intros H. rewrite IH; auto.
Qed.

Lemma keys_update (k : string) (f : Chat -> Chat) (m : JsMap.t) :
  JsMap.keys (JsMap.update k f m) = JsMap.keys m.
Proof.
  unfold JsMap.keys.
  induction m as [|[k' v] m IH]; simpl; [reflexivity|].
  destruct (String.eqb k' k); simpl; [reflexivity|]. now rewrite IH.
Qed.

Lemma update_update (k : string) (f g : Chat -> Chat) (m : JsMap.t) :
  JsMap.update k g (JsMap.update k f m) = JsMap.update k (fun c => g (f c)) m.
Proof.
  induction m as [|[k' v] m IH]; simpl; [reflexivity|].
  destruct (String.eqb k' k) eqn:E; simpl; rewrite E; [reflexivity|].
  now rewrite IH.
Qed.

End JsMapFacts.

(** ** Facts about running programs *)

Lemma run_bind {A B : Type} (p : prog A) (f : A -> prog B) (w : world) :
  run (bind p f) w =
  let '(w1, sp1, st1) := run p w in
  match st1 with
  | Finished a =>
      let '(w2, sp2, st2) := run (f a) w1 in (w2, sp1 ++ sp2, st2)
  | Blocked wt => (w1, sp1, Blocked (map_waiting (fun q => bind q f) wt))
  end.
Proof.
  revert f w.
  induction p as [A a|A k IH|A a k IH|A k IH|A h k IH|A r k IH|A rs k IH|A q _ k IH];
    intros f w; simpl.
  - destruct (run (f a) w) as [[w2 sp2] st2]. reflexivity.
  - apply IH.
  - apply IH.
  - apply IH.
  - apply IH.
  - reflexivity.
  - destruct rs; [apply IH|reflexivity].
  - destruct (run q w) as [[w1 sp1] st1].
    rewrite IH.
    destruct (run k w1) as [[w2 sp2] st2].
    destruct st2 as [a|wt].
    + destruct (run (f a) w2) as [[w3 sp3] st3].
      now rewrite !app_assoc.
    + reflexivity.
Qed.

Lemma returns_bind {A B : Type} (p : prog A) (f : A -> prog B)
      (w w' : world) (a : A) :
  returns p w w' a -> run (bind p f) w = run (f a) w'.
Proof.
  unfold returns. intros H. rewrite run_bind, H.
  destruct (run (f a) w') as [[w2 sp2] st2]. reflexivity.
Qed.


(** ** Relative time (formatTime) *)

Section RelativeTime.

Variable toLocaleDateString : Z -> string.

Lemma div_ltb_const (x d n : Z) :
  0 < d -> (x / d <? n) = (x <? n * d).
Proof.
  intros Hd.
  destruct (Z.ltb_spec (x / d) n) as [H|H];
    destruct (Z.ltb_spec x (n * d)) as [H'|H'];
    try reflexivity; exfalso.
  - pose proof (Z.div_le_lower_bound x d n Hd). lia.
  - pose proof (Z.div_lt_upper_bound x d n Hd). lia.
Qed.

Lemma formatTime_relative_label (date elapsed : Z) :
  formatTime toLocaleDateString (date + elapsed) date =
  relative_label toLocaleDateString elapsed date.
Proof.
  unfold formatTime, relative_label.
  replace (date + elapsed - date) with elapsed by lia.
  rewrite !div_ltb_const by lia. reflexivity.
Qed.

(** C9.  The label computed by [formatTime] from the floor quotients of the
    elapsed milliseconds by 60000, 3600000 and 86400000 is the one the
    thresholds give: "Now" under one minute, minutes under 60 minutes, hours
    under 24 hours, days under 7 days, the locale date otherwise; this holds
    for every elapsed time, so for every non-negative one.  A boundary value
    falls in the coarser bucket: 0 and 59000 ms give "Now", 60000 ms "1m ago",
    3600000 ms "1h ago", 86400000 ms "1d ago", and 7 days the locale date. *)
Theorem formatTime_buckets (date : Z) :
  (forall elapsed,
     formatTime toLocaleDateString (date + elapsed) date =
     relative_label toLocaleDateString elapsed date) /\
  formatTime toLocaleDateString (date + 0) date = "Now" /\
  formatTime toLocaleDateString (date + 59000) date = "Now" /\
  formatTime toLocaleDateString (date + 60000) date = "1m ago" /\
  formatTime toLocaleDateString (date + 3599999) date = "59m ago" /\
  formatTime toLocaleDateString (date + 3600000) date = "1h ago" /\
  formatTime toLocaleDateString (date + 86399999) date = "23h ago" /\
  formatTime toLocaleDateString (date + 86400000) date = "1d ago" /\
  formatTime toLocaleDateString (date + (7 * 86400000 - 1)) date = "6d ago" /\
  formatTime toLocaleDateString (date + 7 * 86400000) date =
    toLocaleDateString date.
Proof.
  split; [exact (formatTime_relative_label date)|].
  rewrite !formatTime_relative_label. repeat split.
Qed.

End RelativeTime.

(** ** Appending messages (addMessageLocally) *)

Lemma addMessageLocally_present (ty : msg_type) (text : string) (w : world)
      (cid : string) (c : Chat) :
  currentChatId (app w) = Some cid ->
  JsMap.get cid (chats (app w)) = Some c ->
  returns (addMessageLocally ty text) w (after_append ty text cid w) tt.
Proof.
  intros Hc Hg. unfold returns, addMessageLocally. cbn. rewrite Hc, Hg. cbn.
  rewrite JsMapFacts.update_update. unfold log, after_append, appended. cbn.
  rewrite <- app_assoc. reflexivity.
Qed.

Lemma addMessageLocally_absent (ty : msg_type) (text : string) (w : world) :
  currentChat (app w) = None -> returns (addMessageLocally ty text) w w tt.
Proof.
  unfold currentChat, returns, addMessageLocally. cbn.
  destruct (currentChatId (app w)) as [cid|]; [|reflexivity].
  intros ->. reflexivity.
Qed.






(** ** Sending a message (sendMessage) *)

Lemma addMessageLocally_returns ty text w :
  returns (addMessageLocally ty text) w (world_after (addMessageLocally ty text) w) tt.
Proof.
  unfold world_after.
  destruct (currentChat (app w)) as [c|] eqn:E.
  - unfold currentChat in E. destruct (currentChatId (app w)) as [cid|] eqn:Hc; [|discriminate].
    rewrite (addMessageLocally_present ty text w cid c Hc E).
    apply (addMessageLocally_present ty text w cid c Hc E).
  - rewrite (addMessageLocally_absent ty text w E). apply (addMessageLocally_absent ty text w E).
Qed.

Lemma addMessageLocally_keeps_selection ty text w :
  currentChatId (app (world_after (addMessageLocally ty text) w)) = currentChatId (app w) /\
  isLoading (app (world_after (addMessageLocally ty text) w)) = isLoading (app w).
Proof.
  unfold world_after.
  destruct (currentChat (app w)) as [c|] eqn:E.
  - unfold currentChat in E. destruct (currentChatId (app w)) as [cid|] eqn:Hc; [|discriminate].
    rewrite (addMessageLocally_present ty text w cid c Hc E). simpl. auto.
  - rewrite (addMessageLocally_absent ty text w E). auto.
Qed.

Lemma sendMessage_rejects w :
  Str.trim (input (app w)) = "" \/ isLoading (app w) = true ->
  run sendMessage w = (w, [], Finished tt).
Proof.
  intros H. unfold sendMessage. cbn -[addMessageLocally].
  destruct H as [H|H]; rewrite H; cbn; [reflexivity|].
  rewrite orb_true_r. reflexivity.
Qed.

Lemma truthy_nonempty s : s <> "" -> Str.truthy s = true.
Proof.
  intros H. unfold Str.truthy. destruct (String.eqb_spec s ""); [contradiction|reflexivity].
Qed.

Lemma sendMessage_suspends w :
  Str.trim (input (app w)) <> "" -> isLoading (app w) = false ->
  run sendMessage w =
  (send_started w, [],
   Blocked (WFetch (POST_ask (Str.trim (input (app w))) (currentChatId (app w)))
                   (sendMessage_resume (Str.trim (input (app w)))))).
Proof.
  intros Hm Hl. unfold sendMessage. cbn -[addMessageLocally].
  rewrite (truthy_nonempty _ Hm), Hl. cbn -[addMessageLocally].
  rewrite (returns_bind _ _ _ _ _ (addMessageLocally_returns _ _ _)).
  cbn -[addMessageLocally]. unfold send_started.
  rewrite (proj1 (addMessageLocally_keeps_selection _ _ _)). reflexivity.
Qed.

Lemma resume_failure m res w :
  exchange_succeeded res = None ->
  run (sendMessage_resume m res) w = (send_finished (reply_appended res w), [], Finished tt).
Proof.
  intros H. unfold reply_appended, reply_text. rewrite H.
  unfold sendMessage_resume.
  destruct res as [|ok [data|]]; cbn -[addMessageLocally] in *.
  - rewrite (returns_bind _ _ _ _ _ (addMessageLocally_returns _ _ _)). reflexivity.
  - rewrite H. cbn -[addMessageLocally].
    rewrite (returns_bind _ _ _ _ _ (addMessageLocally_returns _ _ _)). reflexivity.
  - rewrite (returns_bind _ _ _ _ _ (addMessageLocally_returns _ _ _)). reflexivity.
Qed.

Lemma resume_success m res reply w :
  exchange_succeeded res = Some reply ->
  exists k,
    run (sendMessage_resume m res) w =
      (log (EvFetch GET_user_memory)
         (world_after (updateChatTitleFromFirstMessage m) (reply_appended res w)),
       snd (fst (run (updateChatTitleFromFirstMessage m) (reply_appended res w))) ++
       own_waiting (snd (run (updateChatTitleFromFirstMessage m) (reply_appended res w))),
       Blocked (WFetch GET_user_memory k)) /\
    forall r w4, exists w5,
      run (k r) w4 = (w5, [], Finished tt) /\
      isLoading (app w5) = false /\
      chats (app w5) = chats (app w4) /\
      currentChatId (app w5) = currentChatId (app w4).
Proof.
  intros H. unfold reply_appended, reply_text. rewrite H.
  unfold sendMessage_resume.
  destruct res as [|ok [data|]]; cbn -[addMessageLocally] in H; try discriminate.
  cbn -[addMessageLocally updateChatTitleFromFirstMessage]. rewrite H.
  rewrite run_bind.
  rewrite (returns_bind _ _ _ _ _ (addMessageLocally_returns _ _ _)).
  cbn -[addMessageLocally updateChatTitleFromFirstMessage].
  unfold world_after.
  destruct (run (updateChatTitleFromFirstMessage m) _) as [[w1 sp1] st1].
  cbn [fst snd].
  eexists. split.
  - destruct st1; cbn [own_waiting]; rewrite ?app_nil_r; reflexivity.
  - intros r w4. destruct r as [|[|] [d|]]; cbn; eexists; repeat split.
Qed.

Lemma title_skipped m w cid c :
  currentChatId (app w) = Some cid -> JsMap.get cid (chats (app w)) = Some c ->
  (2 < List.length (messages c))%nat ->
  run (updateChatTitleFromFirstMessage m) w = (w, [], Finished tt).
Proof.
  intros Hc Hg Hn. unfold updateChatTitleFromFirstMessage.
  cbn -[Nat.ltb]. rewrite Hc, Hg.
  apply Nat.ltb_lt in Hn. rewrite Hn. reflexivity.
Qed.

Lemma title_no_chat m w :
  currentChat (app w) = None ->
  run (updateChatTitleFromFirstMessage m) w = (w, [], Finished tt).
Proof.
  unfold currentChat, updateChatTitleFromFirstMessage. cbn.
  destruct (currentChatId (app w)); [|reflexivity]. intros ->. reflexivity.
Qed.

Lemma title_set m w cid c :
  currentChatId (app w) = Some cid -> JsMap.get cid (chats (app w)) = Some c ->
  (List.length (messages c) <= 2)%nat ->
  run (updateChatTitleFromFirstMessage m) w =
    (log (EvFetch (POST_chat cid (derive_title m)))
       (put_app (set_chats (JsMap.update cid (set_title (derive_title m)) (chats (app w))) (app w)) w),
     [],
     Blocked (WFetch (POST_chat cid (derive_title m))
                (fun _ => call_hook UpdateChatTitle ;; call_hook RenderChatList))).
Proof.
  intros Hc Hg Hn. unfold updateChatTitleFromFirstMessage.
  cbn -[Nat.ltb]. rewrite Hc, Hg.
  apply Nat.ltb_ge in Hn. rewrite Hn. reflexivity.
Qed.

Lemma title_world m w :
  app (world_after (updateChatTitleFromFirstMessage m) w) = title_applied m (app w).
Proof.
  unfold world_after, title_applied.
  destruct (currentChatId (app w)) as [cid|] eqn:Hc.
  - destruct (JsMap.get cid (chats (app w))) as [c|] eqn:Hg.
    + destruct (Nat.ltb_spec 2 (List.length (messages c))) as [Hn|Hn].
      * rewrite (title_skipped m w cid c Hc Hg Hn). reflexivity.
      * rewrite (title_set m w cid c Hc Hg Hn). reflexivity.
    + rewrite title_no_chat; [reflexivity|]. unfold currentChat. now rewrite Hc.
  - rewrite title_no_chat; [reflexivity|]. unfold currentChat. now rewrite Hc.
Qed.

Lemma append_world ty text w :
  app (world_after (addMessageLocally ty text) w) =
  match currentChatId (app w) with
  | Some cid =>
      match JsMap.get cid (chats (app w)) with
      | Some _ => set_chats (JsMap.update cid (appended ty text (clock w (reads w)) (clock w (S (reads w)))) (chats (app w))) (app w)
      | None => app w
      end
  | None => app w
  end.
Proof.
  unfold world_after.
  destruct (currentChatId (app w)) as [cid|] eqn:Hc.
  - destruct (JsMap.get cid (chats (app w))) as [c|] eqn:Hg.
    + rewrite (addMessageLocally_present ty text w cid c Hc Hg). reflexivity.
    + rewrite addMessageLocally_absent; [reflexivity|]. unfold currentChat. now rewrite Hc.
  - rewrite addMessageLocally_absent; [reflexivity|]. unfold currentChat. now rewrite Hc.
Qed.

Lemma resume_world m res w :
  app (world_after (sendMessage_resume m res) w) =
  match exchange_succeeded res with
  | Some _ => title_applied m (app (reply_appended res w))
  | None => set_isLoading false (app (reply_appended res w))
  end.
Proof.
  unfold world_after at 1.
  destruct (exchange_succeeded res) as [reply|] eqn:E.
  - destruct (resume_success m res reply w E) as (k & -> & _).
    cbn [fst snd app log]. apply title_world.
  - rewrite (resume_failure m res w E). reflexivity.
Qed.

(** C6.  A send is rejected when the trimmed input is blank or a send is in
    flight: the world, its store and its trace are unchanged, so no message is
    appended and no request issued; the guard is the one flag [isLoading] of
    the application, whatever the current conversation.  An accepted send
    raises the flag and suspends on the exchange request, and every execution
    from there ends with the flag released: on a reply, on an application
    error and on a transport failure, whatever happened to the world while
    the call was suspended. *)
Theorem sendMessage_guard_and_release (w : world) :
  let message := Str.trim (input (app w)) in
  (message = "" \/ isLoading (app w) = true ->
   run sendMessage w = (w, [], Finished tt)) /\
  (message <> "" -> isLoading (app w) = false ->
   run sendMessage w =
     (send_started w, [],
      Blocked (WFetch (POST_ask message (currentChatId (app w)))
                      (sendMessage_resume message))) /\
   isLoading (app (send_started w)) = true /\
   settles (fun w' _ => isLoading (app w') = false) sendMessage w).
Proof.
  intros message. split; [apply sendMessage_rejects|].
  intros Hm Hl. split; [apply sendMessage_suspends; assumption|]. split.
  - unfold send_started. cbn [app log put_app isLoading set_input].
    rewrite (proj2 (addMessageLocally_keeps_selection _ _ _)). reflexivity.
  - eapply settles_fetch; [apply sendMessage_suspends; assumption|].
    intros res w2. destruct (exchange_succeeded res) as [reply|] eqn:E.
    + destruct (resume_success (Str.trim (input (app w))) res reply w2 E)
        as (k & Hrun & Hk).
      eapply settles_fetch; [exact Hrun|].
      intros r w4. destruct (Hk r w4) as (w5 & H5 & Hl5 & _).
      eapply settles_finished; [exact H5|exact Hl5].
    + eapply settles_finished; [apply resume_failure; exact E|]. reflexivity.
Qed.


(** C10.  The continuation of a send appends the reply (or the synthetic
    error message) to the conversation that is current in the world [w2] in
    which the response arrives, whichever conversation the query was sent
    from, and leaves the messages of every other conversation as they are.
    When the current id references no conversation at that point, nothing is
    appended: the store is unchanged by the continuation, up to its end. *)
Theorem reply_goes_to_current_conversation
        (w : world) (res : fetch_result) (w2 : world) :
  let m := Str.trim (input (app w)) in
  (m <> "" -> isLoading (app w) = false ->
   run sendMessage w =
     (send_started w, [],
      Blocked (WFetch (POST_ask m (currentChatId (app w)))
                      (sendMessage_resume m)))) /\
  (forall cid c,
     currentChatId (app w2) = Some cid ->
     JsMap.get cid (chats (app w2)) = Some c ->
     exists c3 t,
       JsMap.get cid (chats (app (world_after (sendMessage_resume m res) w2)))
         = Some c3 /\
       messages c3 = messages c ++ [mkMessage ai (reply_text res) t] /\
       forall other, other <> cid ->
         JsMap.get other (chats (app (world_after (sendMessage_resume m res) w2)))
         = JsMap.get other (chats (app w2))) /\
  (currentChat (app w2) = None ->
   exists w3 st,
     run (sendMessage_resume m res) w2 = (w3, [], st) /\
     chats (app w3) = chats (app w2) /\
     forall r k, st = Blocked (WFetch r k) ->
       forall res' w4, exists w5,
         run (k res') w4 = (w5, [], Finished tt) /\
         chats (app w5) = chats (app w4)).
Proof.
  intros m. split; [intros; apply sendMessage_suspends; assumption|]. split.
  - intros cid c Hc Hg.
    assert (Ha : app (reply_appended res w2) =
                 set_chats (JsMap.update cid
                     (appended ai (reply_text res)
                        (clock w2 (reads w2)) (clock w2 (S (reads w2))))
                     (chats (app w2))) (app w2)).
    { unfold reply_appended. rewrite append_world.
      cbn [app log currentChatId chats clock reads]. rewrite Hc, Hg. reflexivity. }
    rewrite resume_world, Ha.
    destruct (exchange_succeeded res) as [reply|].
    + unfold title_applied. cbn [currentChatId chats set_chats]. rewrite Hc.
      rewrite JsMapFacts.get_update_same, Hg. cbn [option_map].
      destruct (2 <? _)%nat.
      * cbn [chats set_chats]. rewrite JsMapFacts.get_update_same, Hg.
        do 2 eexists. split; [reflexivity|]. split; [reflexivity|].
        intros other Hne. now apply JsMapFacts.get_update_other.
      * cbn [chats set_chats]. rewrite !JsMapFacts.get_update_same, Hg.
        do 2 eexists. split; [reflexivity|]. split; [reflexivity|].
        intros other Hne. now rewrite !JsMapFacts.get_update_other.
    + cbn [chats set_chats set_isLoading]. rewrite JsMapFacts.get_update_same, Hg.
      do 2 eexists. split; [reflexivity|]. split; [reflexivity|].
      intros other Hne. now apply JsMapFacts.get_update_other.
  - intros Hn.
    assert (Hw : reply_appended res w2 = log (EvHook HideLoader) w2).
    { unfold reply_appended, world_after.
      rewrite (addMessageLocally_absent ai (reply_text res)
                 (log (EvHook HideLoader) w2) Hn).
      reflexivity. }
    destruct (exchange_succeeded res) as [reply|] eqn:E.
    + destruct (resume_success m res reply w2 E) as (k & Hrun & Hk).
      rewrite Hw in Hrun. unfold world_after in Hrun.
      rewrite (title_no_chat m (log (EvHook HideLoader) w2) Hn) in Hrun.
      cbn [fst snd own_waiting List.app] in Hrun.
      do 2 eexists. split; [exact Hrun|]. split; [reflexivity|].
      intros r k' Hk'. injection Hk' as _ <-.
      intros res' w4. destruct (Hk res' w4) as (w5 & H5 & _ & H6 & _).
      exists w5. split; assumption.
    + do 2 eexists. split; [apply resume_failure; exact E|].
      rewrite Hw. split; [reflexivity|]. intros r k Hk. discriminate.
Qed.



(** ** Switching conversations (switchToChat, loadChatHistory) *)

Lemma returns_seq {A B : Type} (p : prog A) (f : A -> prog B)
      (w w1 w2 : world) (a : A) (b : B) :
  returns p w w1 a -> returns (f a) w1 w2 b -> returns (bind p f) w w2 b.
Proof.
  intros H1 H2. unfold returns. rewrite (returns_bind _ _ _ _ _ H1). exact H2.
Qed.

Lemma switchToChat_finish_returns chatId w :
  returns (switchToChat_finish chatId) w (switched chatId w) tt.
Proof.
  unfold returns, switchToChat_finish, switched. cbn.
  destruct (innerWidth (app w) <=? 768); reflexivity.
Qed.

Lemma history_messages_returns rows : forall w,
  exists ms w',
    returns (history_messages rows) w w' ms /\
    app w' = app w /\ trace w' = trace w /\
    map what ms = map row_what rows.
Proof.
  induction rows as [|row rest IH]; intros w.
  - exists [], w. repeat split.
  - assert (Hm : exists t w1, returns (history_message row) w w1
                   (mkMessage (fst (row_what row)) (snd (row_what row)) t) /\
                   app w1 = app w /\ trace w1 = trace w).
    { unfold history_message, returns, row_what.
      destruct (row_timestamp row) as [t|]; [|destruct (row_msg_created_at row) as [t|]];
        cbn; do 2 eexists; repeat split. }
    destruct Hm as (t & w1 & Hr & Ha & Ht).
    destruct (IH w1) as (ms & w' & Hr' & Ha' & Ht' & Hw).
    exists (mkMessage (fst (row_what row)) (snd (row_what row)) t :: ms), w'.
    split; [|split; [congruence|split; [congruence|]]].
    + unfold returns. cbn [history_messages].
      rewrite (returns_bind _ _ _ _ _ Hr).
      rewrite (returns_bind _ _ _ _ _ Hr'). reflexivity.
    + cbn. rewrite Hw. reflexivity.
Qed.

Lemma loadChatHistory_resume_returns chatId res w :
  exists b, returns (loadChatHistory_resume chatId res) w (loaded chatId res w) b.
Proof.
  unfold loaded, world_after, returns, loadChatHistory_resume.
  destruct res as [|[|] [data|]]; try (eexists; reflexivity).
  destruct (j_history data) as [rows|]; [|eexists; reflexivity].
  cbn -[history_messages].
  destruct (JsMap.get chatId (chats (app w))); [|eexists; reflexivity].
  destruct (history_messages_returns rows w) as (ms & w' & Hr & _).
  rewrite (returns_bind _ _ _ _ _ Hr). cbn. eexists; reflexivity.
Qed.

Lemma loaded_frame chatId res w :
  trace (loaded chatId res w) = trace w /\
  currentChatId (app (loaded chatId res w)) = currentChatId (app w) /\
  innerWidth (app (loaded chatId res w)) = innerWidth (app w) /\
  JsMap.keys (chats (app (loaded chatId res w))) = JsMap.keys (chats (app w)).
Proof.
  unfold loaded, world_after, loadChatHistory_resume.
  destruct res as [|[|] [data|]]; try (repeat split; reflexivity).
  destruct (j_history data) as [rows|]; [|repeat split; reflexivity].
  cbn -[history_messages].
  destruct (JsMap.get chatId (chats (app w))); [|repeat split; reflexivity].
  destruct (history_messages_returns rows w) as (ms & w' & Hr & Ha & Ht & _).
  rewrite (returns_bind _ _ _ _ _ Hr). cbn. rewrite Ha, Ht.
  rewrite JsMapFacts.keys_update. repeat split; reflexivity.
Qed.

Lemma loaded_chats chatId res w :
  match history_of res with
  | Some rows =>
      exists ms, map what ms = map row_what rows /\
        chats (app (loaded chatId res w)) =
        JsMap.update chatId (set_messages ms) (chats (app w))
  | None => chats (app (loaded chatId res w)) = chats (app w)
  end.
Proof.
  unfold loaded, world_after, loadChatHistory_resume, history_of.
  destruct res as [|[|] [data|]]; try reflexivity.
  destruct (j_history data) as [rows|]; [|reflexivity].
  cbn -[history_messages].
  destruct (history_messages_returns rows w) as (ms & w' & Hr & Ha & Ht & Hw).
  exists ms. split; [exact Hw|].
  destruct (JsMap.get chatId (chats (app w))) eqn:Hg.
  - rewrite (returns_bind _ _ _ _ _ Hr). cbn. rewrite Ha. reflexivity.
  - cbn. symmetry. apply JsMapFacts.update_absent. exact Hg.
Qed.

Lemma switchToChat_resume_returns chatId res w :
  returns (switchToChat_resume chatId res) w (switched chatId (loaded chatId res w)) tt.
Proof.
  unfold switchToChat_resume.
  destruct (loadChatHistory_resume_returns chatId res w) as (b & Hb).
  eapply returns_seq; [|apply switchToChat_finish_returns].
  eapply returns_seq; [exact Hb|reflexivity].
Qed.

Lemma switchToChat_suspends chatId w chat :
  chatId <> "" -> is_current (app w) chatId = false ->
  JsMap.get chatId (chats (app w)) = Some chat -> messages chat = [] ->
  run (switchToChat chatId) w =
    (log (EvFetch (GET_chat_history chatId)) w, [],
     Blocked (WFetch (GET_chat_history chatId) (switchToChat_resume chatId))).
Proof.
  intros Hne Hcur Hg Hm. unfold switchToChat, loadChatHistory.
  cbn -[switchToChat_finish loadChatHistory_resume]. rewrite Hcur, Hg, Hm.
  apply String.eqb_neq in Hne. rewrite Hne. reflexivity.
Qed.


Lemma switchToChat_current chatId w :
  is_current (app w) chatId = true ->
  run (switchToChat chatId) w = (w, [], Finished tt).
Proof.
  intros Hcur. unfold switchToChat. cbn -[switchToChat_finish loadChatHistory].
  rewrite Hcur. reflexivity.
Qed.

Lemma fetches_app (l1 l2 : list event) : fetches (l1 ++ l2) = fetches l1 ++ fetches l2.
Proof.
  induction l1 as [|[r|h] l1 IH]; simpl; [reflexivity| |]; now rewrite IH.
Qed.

Lemma switched_frame chatId w :
  fetches (trace (switched chatId w)) = fetches (trace w) /\
  chats (app (switched chatId w)) = chats (app w) /\
  currentChatId (app (switched chatId w)) = Some chatId.
Proof.
  unfold switched. destruct (innerWidth (app w) <=? 768); cbn;
    rewrite !fetches_app; cbn; rewrite ?app_nil_r; repeat split.
Qed.



Lemma start_returns (p : prog unit) (w w' : world)
      (pl : list (waiting unit)) (ab : list request) :
  returns p w w' tt -> start p (mkConfig w pl ab) = mkConfig w' pl ab.
Proof.
  unfold returns, start. cbn [cworld pool abandoned]. intros ->.
  cbn [own_waiting List.app]. now rewrite app_nil_r.
Qed.

Lemma settle_first (slot : nat) (res : fetch_result) (w : world) (r : request)
      (k : fetch_result -> prog unit) (rest : list (waiting unit))
      (ab : list request) :
  settle 0 slot res (mkConfig w (WFetch r k :: rest) ab) =
  start (k res) (mkConfig w rest ab).
Proof. reflexivity. Qed.

Lemma settle_second (slot : nat) (res : fetch_result) (w : world) (r : request)
      (k : fetch_result -> prog unit) (x : waiting unit)
      (rest : list (waiting unit)) (ab : list request) :
  settle 1 slot res (mkConfig w (x :: WFetch r k :: rest) ab) =
  start (k res) (mkConfig w (x :: rest) ab).
Proof. reflexivity. Qed.

(** C2, as amended.  Two switches to the same conversation, not current and
    with an empty message list, each issue their own GET /chat-history/{id}:
    two requests are in flight.  In whichever order the two settle, each call
    then selects the conversation and renders, no further request is issued,
    and a history carried by the response that settles last is the message
    list of the conversation. *)
Theorem concurrent_switches_each_fetch
        (w : world) (chatId : string) (chat : Chat) (r1 r2 : fetch_result) :
  chatId <> "" ->
  is_current (app w) chatId = false ->
  JsMap.get chatId (chats (app w)) = Some chat ->
  messages chat = [] ->
  let c2 := exec [CallSwitch chatId; CallSwitch chatId] (mkConfig w [] []) in
  in_flight c2 = [GET_chat_history chatId; GET_chat_history chatId] /\
  fetches (trace (cworld c2)) =
    fetches (trace w) ++ [GET_chat_history chatId; GET_chat_history chatId] /\
  app (cworld c2) = app w /\
  forall i, (i <= 1)%nat ->
    let c4 := exec [Settle i 0 r1; Settle 0 0 r2] c2 in
    in_flight c4 = [] /\
    currentChatId (app (cworld c4)) = Some chatId /\
    fetches (trace (cworld c4)) = fetches (trace (cworld c2)) /\
    (forall rows, history_of r2 = Some rows ->
       exists c ms,
         JsMap.get chatId (chats (app (cworld c4))) = Some c /\
         messages c = ms /\ map what ms = map row_what rows).
Proof.
  intros Hne Hcur Hg Hm c2.
  assert (E2 : c2 = mkConfig
                 (log (EvFetch (GET_chat_history chatId))
                    (log (EvFetch (GET_chat_history chatId)) w))
                 [WFetch (GET_chat_history chatId) (switchToChat_resume chatId);
                  WFetch (GET_chat_history chatId) (switchToChat_resume chatId)]
                 []).
  { unfold c2, exec. cbn [fold_left perform]. unfold start at 2. cbn [cworld].
    rewrite (switchToChat_suspends chatId w chat Hne Hcur Hg Hm).
    cbn [pool abandoned own_waiting List.app]. unfold start. cbn [cworld].
    rewrite (switchToChat_suspends chatId
               (log (EvFetch (GET_chat_history chatId)) w) chat Hne Hcur Hg Hm).
    reflexivity. }
  clearbody c2. subst c2. split; [reflexivity|]. split.
  { cbn [cworld trace log]. rewrite <- app_assoc, fetches_app. reflexivity. }
  split; [reflexivity|].
  intros i Hi c4.
  set (w2 := log (EvFetch (GET_chat_history chatId))
               (log (EvFetch (GET_chat_history chatId)) w)) in *.
  assert (E4 : c4 = mkConfig
                 (switched chatId (loaded chatId r2
                    (switched chatId (loaded chatId r1 w2)))) [] []).
  { unfold c4, exec. cbn [fold_left perform]. fold w2.
    assert (Hi' : i = 0%nat \/ i = 1%nat) by lia.
    clear c4. destruct Hi' as [-> | ->].
    - rewrite settle_first.
      rewrite (start_returns _ _ _ _ _ (switchToChat_resume_returns chatId r1 w2)).
      rewrite settle_first.
      rewrite (start_returns _ _ _ _ _ (switchToChat_resume_returns chatId r2 _)).
      reflexivity.
    - rewrite settle_second.
      rewrite (start_returns _ _ _ _ _ (switchToChat_resume_returns chatId r1 w2)).
      rewrite settle_first.
      rewrite (start_returns _ _ _ _ _ (switchToChat_resume_returns chatId r2 _)).
      reflexivity. }
  clearbody c4. subst c4. cbn [cworld]. split; [reflexivity|].
  split; [apply switched_frame|].
  split.
  - rewrite (proj1 (switched_frame _ _)), (proj1 (loaded_frame _ _ _)).
    rewrite (proj1 (switched_frame _ _)), (proj1 (loaded_frame _ _ _)).
    reflexivity.
  - intros rows Hh.
    rewrite (proj1 (proj2 (switched_frame chatId _))).
    pose proof (loaded_chats chatId r2 (switched chatId (loaded chatId r1 w2))) as Hl.
    rewrite Hh in Hl. destruct Hl as (ms & Hms & ->).
    rewrite JsMapFacts.get_update_same.
    rewrite (proj1 (proj2 (switched_frame chatId _))).
    assert (Hk : exists c1, JsMap.get chatId (chats (app (loaded chatId r1 w2))) = Some c1).
    { pose proof (loaded_chats chatId r1 w2) as Hl1.
      destruct (history_of r1).
      - destruct Hl1 as (ms1 & _ & ->). rewrite JsMapFacts.get_update_same.
        cbn [w2 app log chats]. rewrite Hg. eexists; reflexivity.
      - rewrite Hl1. cbn [w2 app log chats]. rewrite Hg. eexists; reflexivity. }
    destruct Hk as (c1 & ->). cbn [option_map].
    do 2 eexists. split; [reflexivity|]. split; [reflexivity|exact Hms].
Qed.

(** ** Creating a conversation and clearing all (createNewChat, clearAllChats) *)

Lemma createNewChat_suspends w :
  run createNewChat w =
    (create_started w, [],
     Blocked (WFetch (POST_chat (new_chat_id (clock w (reads w)) (chatCounter (app w)))
                                new_title)
                (createNewChat_resume
                   (new_chat_id (clock w (reads w)) (chatCounter (app w)))))).
Proof. reflexivity. Qed.

Lemma createNewChat_resume_confirmed chatId res w :
  confirmed_by res = true ->
  returns (createNewChat_resume chatId res) w
          (world_after (createNewChat_resume chatId res) w) tt /\
  chats (app (world_after (createNewChat_resume chatId res) w)) =
    JsMap.set chatId
      (mkChat chatId new_title [] (clock w (reads w)) (clock w (S (reads w))) None)
      (chats (app w)) /\
  currentChatId (app (world_after (createNewChat_resume chatId res) w)) = Some chatId.
Proof.
  unfold confirmed_by, world_after, returns, createNewChat_resume.
  destruct res as [|ok [data|]]; try discriminate. intros ->.
  cbn. destruct (innerWidth (app w) <=? 768); cbn; repeat split.
Qed.

Lemma createNewChat_resume_refused chatId res w :
  confirmed_by res = false ->
  run (createNewChat_resume chatId res) w =
    (log (EvHook (ShowError "Failed to create new chat")) w, [], Finished tt).
Proof.
  unfold confirmed_by, createNewChat_resume.
  destruct res as [|ok [data|]]; try reflexivity. intros ->. reflexivity.
Qed.

(** C3, as amended.  Clear-all issues a delete request for every
    conversation id of the store and waits on [Promise.all].  When a request
    is rejected the call shows an error and leaves the store as it is.  When
    all are fulfilled it empties the store, resets the counter and asks the
    backend for one new conversation; if the backend confirms, that
    conversation is the only one and is current; if not, the store stays
    empty and the selection is left as it was. *)
Theorem clearAllChats_fail_fast (w : world) :
  chats (app w) <> [] ->
  let deletes := map DELETE_chat (JsMap.keys (chats (app w))) in
  run (clearAllChats true) w =
    (log_all (map EvFetch deletes) w, [],
     Blocked (WAll (map (fun r => (r, false)) deletes) clearAllChats_resume)) /\
  (forall w2,
     run (clearAllChats_resume AnyRejected) w2 =
       (log (EvHook (ShowError "Failed to clear all chats")) w2, [], Finished tt)) /\
  (forall w2,
     let newId := new_chat_id (clock w2 (reads w2)) 1 in
     exists w3,
       run (clearAllChats_resume AllFulfilled) w2 =
         (w3, [],
          Blocked (WFetch (POST_chat newId new_title) (createNewChat_resume newId))) /\
       chats (app w3) = [] /\
       chatCounter (app w3) = 2 /\
       currentChatId (app w3) = currentChatId (app w2) /\
       (forall res, confirmed_by res = true ->
          exists w5 chat,
            run (createNewChat_resume newId res) w3 = (w5, [], Finished tt) /\
            chats (app w5) = [(newId, chat)] /\
            id chat = newId /\ messages chat = [] /\
            currentChatId (app w5) = Some newId) /\
       (forall res, confirmed_by res = false ->
          exists w5,
            run (createNewChat_resume newId res) w3 = (w5, [], Finished tt) /\
            chats (app w5) = [] /\
            currentChatId (app w5) = currentChatId (app w2))).
Proof.
  intros Hne deletes. split; [|split].
  - unfold clearAllChats, deletes. cbn -[clearAllChats_resume].
    destruct (chats (app w)) as [|[k v] m]; [contradiction|]. reflexivity.
  - intros w2. reflexivity.
  - intros w2 newId. eexists. split; [reflexivity|].
    split; [reflexivity|]. split; [reflexivity|]. split; [reflexivity|]. split.
    + intros res Hres.
      destruct (createNewChat_resume_confirmed newId res
                  (create_started (put_app (set_chatCounter 1 (set_chats [] (app w2))) w2))
                  Hres) as (Hr & Hc & Hs).
      do 2 eexists. split; [exact Hr|]. rewrite Hc, Hs. repeat split.
    + intros res Hres. eexists. split; [apply createNewChat_resume_refused; exact Hres|].
      split; reflexivity.
Qed.

(** ** The operations on a client with three conversations *)

(** C1, on the code.  The store holds [a] (current, updatedAt 300), [b]
    (updatedAt 100) and [c] (updatedAt 200), in this order.  After the
    confirmed delete of [a] the current conversation is [b], the first of the
    remaining ones, not [c], the most recently updated; no history request for
    it is issued before the render, because [switchToChat] is called with the
    id that was just made current and returns at once. *)
Theorem deleteChat_current_selects_first_remaining :
  let before := booted3 [hello_row] in
  let after :=
    exec [CallDelete "a" true; Settle 0 0 (ok_json json_success)] before in
  currentChatId (app (cworld before)) = Some "a" /\
  map (fun c => (id c, updatedAt c)) (JsMap.values (chats (app (cworld after))))
    = [("b", 100); ("c", 200)] /\
  currentChatId (app (cworld after)) = Some "b" /\
  in_flight after = [] /\
  count_request (GET_chat_history "b") (fetches (trace (cworld after))) = 0%nat /\
  option_map messages (JsMap.get "b" (chats (app (cworld after)))) = Some [] /\
  trace (cworld after) =
    trace (cworld before) ++
    [EvFetch (DELETE_chat "a");
     EvHook UpdateChatTitle; EvHook RenderChatList; EvHook RenderMessages].
Proof. vm_compute. repeat split. Qed.

(** C2 as stated fails: two switches to the not yet loaded [b] put two
    history requests for [b] in flight. *)
Lemma concurrent_switches_issue_two_fetches :
  let c := exec [CallSwitch "b"; CallSwitch "b"] (booted3 [hello_row]) in
  in_flight c = [GET_chat_history "b"; GET_chat_history "b"] /\
  count_request (GET_chat_history "b") (fetches (trace (cworld c))) = 2%nat /\
  ~ (count_request (GET_chat_history "b") (in_flight c) <= 1)%nat.
Proof. vm_compute. repeat split. lia. Qed.

(** C3 as stated fails.  When the delete of [b] is rejected first, the call
    shows an error while the deletes of [a] and [c] are still unsettled, the
    store keeps its three conversations and no conversation is created.  And
    when every delete is fulfilled but the create is not confirmed, the store
    is left empty, with the old selection. *)
Lemma clearAllChats_stops_at_first_rejection :
  let before := booted3 [hello_row] in
  let rejected := exec [CallClearAll true; Settle 0 1 Rejected] before in
  let refused :=
    exec [CallClearAll true;
          Settle 0 0 (ok_json json_success);
          Settle 0 1 (ok_json json_success);
          Settle 0 2 (ok_json json_success);
          Settle 0 0 (ok_json empty_json)] before in
  (JsMap.keys (chats (app (cworld rejected))) = ["a"; "b"; "c"] /\
   in_flight rejected = [] /\
   abandoned rejected = [DELETE_chat "a"; DELETE_chat "c"] /\
   trace (cworld rejected) =
     trace (cworld before) ++
     [EvFetch (DELETE_chat "a"); EvFetch (DELETE_chat "b");
      EvFetch (DELETE_chat "c");
      EvHook (ShowError "Failed to clear all chats")]) /\
  (chats (app (cworld refused)) = [] /\
   currentChatId (app (cworld refused)) = Some "a" /\
   in_flight refused = []).
Proof. vm_compute. repeat split. Qed.


(** ** Instances on the booted client *)

(** C2 on the booted client: two switches to [b]. *)
Lemma concurrent_switches_each_fetch_witness :
  let r1 := ok_json (json_history [hello_row]) in
  let r2 := Rejected in
  "b" <> "" /\
  is_current (app world3) "b" = false /\
  JsMap.get "b" (chats (app world3)) = Some chat_b /\
  messages chat_b = [] /\
  let c2 := exec [CallSwitch "b"; CallSwitch "b"] (mkConfig world3 [] []) in
  in_flight c2 = [GET_chat_history "b"; GET_chat_history "b"] /\
  fetches (trace (cworld c2)) =
    fetches (trace world3) ++ [GET_chat_history "b"; GET_chat_history "b"] /\
  app (cworld c2) = app world3 /\
  forall i, (i <= 1)%nat ->
    let c4 := exec [Settle i 0 r1; Settle 0 0 r2] c2 in
    in_flight c4 = [] /\
    currentChatId (app (cworld c4)) = Some "b" /\
    fetches (trace (cworld c4)) = fetches (trace (cworld c2)) /\
    (forall rows, history_of r2 = Some rows ->
       exists c ms,
         JsMap.get "b" (chats (app (cworld c4))) = Some c /\
         messages c = ms /\ map what ms = map row_what rows).
Proof.
  intros r1 r2.
  split; [discriminate|]. split; [reflexivity|]. split; [reflexivity|].
  split; [reflexivity|].
  apply (concurrent_switches_each_fetch world3 "b" chat_b r1 r2).
  - discriminate.
  - reflexivity.
  - reflexivity.
  - reflexivity.
Defined.


(** C3 on the booted client: the three delete requests of clear-all. *)
Lemma clearAllChats_fail_fast_witness :
  chats (app world3) <> [] /\
  run (clearAllChats true) world3 =
    (log_all [EvFetch (DELETE_chat "a"); EvFetch (DELETE_chat "b");
              EvFetch (DELETE_chat "c")] world3,
     [],
     Blocked (WAll [(DELETE_chat "a", false); (DELETE_chat "b", false);
                    (DELETE_chat "c", false)] clearAllChats_resume)).
Proof.
  split; [vm_compute; discriminate|].
  apply (proj1 (clearAllChats_fail_fast world3 ltac:(vm_compute; discriminate))).
Defined.

(** C6 on the booted client: a send with an empty input, and a send of
    " hi ". *)
Lemma sendMessage_guard_and_release_witness :
  (Str.trim (input (app world3)) = "" /\
   run sendMessage world3 = (world3, [], Finished tt)) /\
  (Str.trim (input (app (typing " hi " world3))) <> "" /\
   isLoading (app (typing " hi " world3)) = false /\
   isLoading (app (send_started (typing " hi " world3))) = true /\
   settles (fun w' _ => isLoading (app w') = false) sendMessage
           (typing " hi " world3)).
Proof.
  split.
  - split; [reflexivity|].
    apply (proj1 (sendMessage_guard_and_release world3)). left. reflexivity.
  - split; [vm_compute; discriminate|]. split; [reflexivity|].
    apply (proj2 (sendMessage_guard_and_release (typing " hi " world3))
                 ltac:(vm_compute; discriminate) eq_refl).
Defined.



(** C10 on the booted client: [b] is made current while the exchange sent
    from [a] is in flight. *)
Lemma reply_goes_to_current_conversation_witness :
  let w := typing "hi" world3 in
  let res := ok_json (json_reply "hello again") in
  let w2 := put_app (set_currentChatId (Some "b") (app (send_started w)))
                    (send_started w) in
  currentChatId (app w2) = Some "b" /\
  JsMap.get "b" (chats (app w2)) = Some chat_b /\
  exists c3 t,
    JsMap.get "b" (chats (app (world_after (sendMessage_resume "hi" res) w2)))
      = Some c3 /\
    messages c3 = messages chat_b ++ [mkMessage ai (reply_text res) t] /\
    forall other, other <> "b" ->
      JsMap.get other (chats (app (world_after (sendMessage_resume "hi" res) w2)))
      = JsMap.get other (chats (app w2)).
Proof.
  intros w res w2.
  split; [reflexivity|]. split; [reflexivity|].
  apply (proj1 (proj2 (reply_goes_to_current_conversation w res w2))
               "b" chat_b eq_refl eq_refl).
Defined.

(** * Further properties *)

(** ** Write disciplines and what they give after a run *)

Section Obeys.

Variable R : App -> App -> Prop.

Variable Q : request -> Prop.

Lemma obeys_weaken {A : Type} (p : prog A) : forall cur,
  obeys R Q None p -> obeys R Q cur p.
Proof.
  induction p as [A a|A k IH|A a k IH|A k IH|A h k IH|A r k IH|A rs k IH|A q IHq k IH];
    intros cur H; cbn in *.
  - exact I.
  - intros a0 _. apply H. exact I.
  - destruct H as [[] _].
  - intros t. apply IH. apply H.
  - apply IH. exact H.
  - exact H.
  - exact H.
  - destruct H as [H1 H2]. split; auto.
Qed.

Lemma obeys_bind {A B : Type} (p : prog A) (f : A -> prog B) : forall cur,
  obeys R Q cur p -> (forall a, obeys R Q None (f a)) -> obeys R Q cur (bind p f).
Proof.
  revert f.
  induction p as [A a|A k IH|A a k IH|A k IH|A h k IH|A r k IH|A rs k IH|A q IHq k IH];
    intros f cur H Hf; cbn in *.
  - apply obeys_weaken. apply Hf.
  - intros a0 Ha. apply IH; auto.
  - destruct H as [H1 H2]. split; auto.
  - intros t. apply IH; auto.
  - apply IH; auto.
  - destruct H as [H1 H2]. split; auto.
  - destruct H as [H1 H2]. split; auto.
  - destruct H as [H1 H2]. split; auto.
Qed.

Lemma obeys_run {A : Type} (p : prog A) : forall cur w,
  obeys R Q cur p -> known cur w ->
  clos_refl_trans App R (app w) (app (fst (fst (run p w)))) /\
  Forall (obeys_waiting R Q) (snd (fst (run p w))) /\
  obeys_status R Q (snd (run p w)) /\
  exists es, trace (fst (fst (run p w))) = trace w ++ es /\ Forall Q (fetches es).
Proof.
  induction p as [A a|A k IH|A a k IH|A k IH|A h k IH|A r k IH|A rs k IH|A q IHq k IH];
    intros cur w H Hk; cbn [run].
  - cbn. split; [apply rt_refl|]. split; [constructor|]. split; [exact I|].
    exists []. rewrite app_nil_r. split; constructor.
  - apply (IH (app w) (Some (app w)) w); [|reflexivity].
    apply H. destruct cur; cbn in *; auto.
  - destruct H as [H1 H2]. destruct cur as [a0|]; [|contradiction]. cbn in Hk. subst a0.
    destruct (IH (Some a) (put_app a w) H2 eq_refl) as (S1 & S2 & S3 & es & S4 & S5).
    repeat split; auto.
    + eapply rt_trans; [apply rt_step; exact H1|exact S1].
    + exists es. split; auto.
  - destruct (IH (clock w (reads w)) cur (tick w) (H _)) as (S1 & S2 & S3 & es & S4 & S5).
    { destruct cur; cbn in *; auto. }
    repeat split; auto. exists es. split; auto.
  - destruct (IH cur (log (EvHook h) w) H) as (S1 & S2 & S3 & es & S4 & S5).
    { destruct cur; cbn in *; auto. }
    repeat split; auto. exists (EvHook h :: es). split.
    + rewrite S4. cbn. rewrite <- app_assoc. reflexivity.
    + exact S5.
  - destruct H as [H1 H2]. cbn.
    split; [apply rt_refl|]. split; [constructor|]. split; [split; assumption|].
    exists [EvFetch r]. split; [reflexivity|]. cbn. constructor; auto.
  - destruct H as [H1 H2]. destruct rs as [|r rs].
    + apply (IH AllFulfilled None w); [apply H2|exact I].
    + cbn [fst snd]. split; [apply rt_refl|]. split; [constructor|]. split.
      * cbn [obeys_status obeys_waiting]. split; [|exact H2].
        rewrite map_map. cbn [fst]. rewrite map_id. exact H1.
      * exists (map EvFetch (r :: rs)). split; [reflexivity|].
        clear -H1. induction H1; cbn; constructor; auto.
  - destruct H as [H1 H2].
    destruct (IHq cur w H1 Hk) as (S1 & S2 & S3 & es & S4 & S5).
    destruct (run q w) as [[w1 sp1] st1]. cbn [fst snd] in *.
    destruct (IH None w1 H2 I) as (T1 & T2 & T3 & es' & T4 & T5).
    destruct (run k w1) as [[w2 sp2] st2]. cbn [fst snd] in *.
    repeat split.
    + eapply rt_trans; eauto.
    + apply Forall_app. split; [exact S2|]. apply Forall_app. split; [|exact T2].
      destruct st1; cbn; constructor; auto.
    + exact T3.
    + exists (es ++ es'). split.
      * rewrite T4, S4, app_assoc. reflexivity.
      * rewrite fetches_app. apply Forall_app. split; auto.
Qed.

End Obeys.

(** ** The store stays well formed *)

Lemma wf_update (k : string) (f : Chat -> Chat) (m : JsMap.t) :
  (forall c, id (f c) = id c) -> wf_store m -> wf_store (JsMap.update k f m).
Proof.
  intros Hf [Hn Hi]. split.
  - rewrite JsMapFacts.keys_update. exact Hn.
  - clear Hn. induction m as [|[k' v] m IH]; cbn; [constructor|].
    inversion Hi as [|? ? H1 H2]; subst.
    destruct (String.eqb k' k); constructor; cbn in *; auto.
    now rewrite Hf.
Qed.

Lemma keys_set_in (k : string) (v : Chat) (m : JsMap.t) :
  forall x, In x (JsMap.keys (JsMap.set k v m)) <-> x = k \/ In x (JsMap.keys m).
Proof.
  unfold JsMap.keys. induction m as [|[k' v'] m IH]; intros x; cbn.
  - intuition.
  - destruct (String.eqb k' k) eqn:E; cbn.
    + apply String.eqb_eq in E. subst k'. intuition.
    + rewrite IH. intuition.
Qed.

Lemma wf_set (k : string) (v : Chat) (m : JsMap.t) :
  id v = k -> wf_store m -> wf_store (JsMap.set k v m).
Proof.
  intros Hv [Hn Hi]. split.
  - unfold JsMap.keys in *. induction m as [|[k' v'] m IH]; cbn.
    + constructor; [intros []|constructor].
    + apply NoDup_cons_iff in Hn. destruct Hn as [H1 H2].
      apply Forall_cons_iff in Hi. destruct Hi as [H3 H4].
      destruct (String.eqb k' k) eqn:E; cbn.
      * apply String.eqb_eq in E. rewrite <- E. constructor; assumption.
      * apply String.eqb_neq in E. constructor; [|apply IH; assumption].
        intros Hin. apply (keys_set_in k v m) in Hin.
        destruct Hin as [Hin|Hin]; [contradiction|]. apply H1. exact Hin.
  - clear Hn. induction m as [|[k' v'] m IH]; cbn.
    + constructor; [exact Hv|constructor].
    + apply Forall_cons_iff in Hi. destruct Hi as [H3 H4].
      destruct (String.eqb k' k); constructor; cbn; auto.
Qed.

Lemma keys_delete_in (k : string) (m : JsMap.t) :
  forall x, In x (JsMap.keys (JsMap.delete k m)) -> In x (JsMap.keys m).
Proof.
  unfold JsMap.keys. induction m as [|[k' v'] m IH]; intros x; cbn; [auto|].
  destruct (String.eqb k' k); cbn; intuition.
Qed.

Lemma wf_delete (k : string) (m : JsMap.t) :
  wf_store m -> wf_store (JsMap.delete k m).
Proof.
  intros [Hn Hi]. split.
  - unfold JsMap.keys in *. induction m as [|[k' v'] m IH]; cbn; [constructor|].
    inversion Hn as [|? ? H1 H2]; subst. inversion Hi; subst.
    destruct (String.eqb k' k); cbn; [assumption|].
    constructor; [|apply IH; assumption].
    intros Hin. apply H1. apply (keys_delete_in k m). exact Hin.
  - clear Hn. induction m as [|[k' v'] m IH]; cbn; [constructor|].
    inversion Hi; subst. destruct (String.eqb k' k); [assumption|].
    constructor; auto.
Qed.

Lemma wf_empty : wf_store [].
Proof. split; constructor. Qed.

Ltac quiet_step :=
  unfold R_quiet, R_store; cbn;
  try (split; [reflexivity|]); intros;
  first [ assumption
        | apply wf_empty
        | apply wf_update; [intros []; reflexivity|assumption]
        | apply wf_set; [reflexivity|assumption]
        | apply wf_delete; assumption ].

Ltac obey :=
  repeat match goal with
  | H : obeys ?R ?Q None ?p |- obeys ?R ?Q _ ?p => apply obeys_weaken; exact H
  | |- obeys _ _ _ (match ?x with _ => _ end) => destruct x
  | |- obeys _ _ _ (if ?x then _ else _) => destruct x
  | |- obeys _ _ _ _ => progress cbn -[hydrate history_messages]
  | |- obeys _ _ _ (bind _ _) => apply obeys_bind
  | |- obeys _ _ _ (date_or_now ?x) => destruct x
  | |- _ /\ _ => split
  | |- forall _, _ => intro
  | |- True => exact I
  | |- match ?x with _ => _ end => destruct x
  | |- if ?x then _ else _ => destruct x
  end.

Lemma history_messages_obeys R Q rows : obeys R Q None (history_messages rows).
Proof.
  induction rows as [|row rest IH]; cbn -[history_messages]; [exact I|].
  cbn [history_messages]. apply obeys_bind.
  - unfold history_message. obey.
  - intros m. apply obeys_bind; [exact IH|]. intros; exact I.
Qed.

Lemma hydrate_obeys Q rows : obeys R_quiet Q None (hydrate rows).
Proof.
  induction rows as [|row rest IH]; cbn -[hydrate]; [exact I|].
  cbn [hydrate]. obey; try quiet_step.
Qed.

Create HintDb discipline.

Ltac obeying :=
  obey; try quiet_step;
  try solve [apply obeys_weaken; auto with discipline].

Lemma history_messages_quiet rows :
  obeys R_quiet not_ask None (history_messages rows).
Proof. apply history_messages_obeys. Qed.

Lemma hydrate_quiet rows : obeys R_quiet not_ask None (hydrate rows).
Proof. apply hydrate_obeys. Qed.

#[local] Hint Resolve history_messages_quiet hydrate_quiet : discipline.

Lemma loadUserMemory_quiet : obeys R_quiet not_ask None loadUserMemory.
Proof. unfold loadUserMemory. obeying. Qed.

Lemma loadChatsFromBackend_quiet : obeys R_quiet not_ask None loadChatsFromBackend.
Proof. unfold loadChatsFromBackend. obeying. Qed.

Lemma loadChatHistory_quiet chatId :
  obeys R_quiet not_ask None (loadChatHistory chatId).
Proof. unfold loadChatHistory, loadChatHistory_resume. obeying. Qed.

#[local] Hint Resolve loadUserMemory_quiet loadChatsFromBackend_quiet
  loadChatHistory_quiet : discipline.

Lemma loadChatHistory_resume_quiet chatId res :
  obeys R_quiet not_ask None (loadChatHistory_resume chatId res).
Proof. unfold loadChatHistory_resume. obeying. Qed.

Lemma createNewChat_resume_quiet chatId res :
  obeys R_quiet not_ask None (createNewChat_resume chatId res).
Proof. unfold createNewChat_resume. obeying. Qed.

#[local] Hint Resolve loadChatHistory_resume_quiet createNewChat_resume_quiet
  : discipline.

Lemma switchToChat_quiet chatId :
  obeys R_quiet not_ask None (switchToChat chatId).
Proof. unfold switchToChat. obeying. Qed.

Lemma createNewChat_quiet : obeys R_quiet not_ask None createNewChat.
Proof. unfold createNewChat, createNewChat_resume. obeying. Qed.

#[local] Hint Resolve switchToChat_quiet createNewChat_quiet : discipline.

Lemma deleteChat_quiet chatId confirmed :
  obeys R_quiet not_ask None (deleteChat chatId confirmed).
Proof. unfold deleteChat, deleteChat_resume. obeying. Qed.

Lemma clearAllChats_quiet confirmed :
  obeys R_quiet not_ask None (clearAllChats confirmed).
Proof.
  unfold clearAllChats, clearAllChats_resume. obeying.
  apply Forall_forall. intros r Hr. apply in_map_iff in Hr.
  destruct Hr as (k & <- & _). exact I.
Qed.

Lemma initializeApp_quiet : obeys R_quiet not_ask None initializeApp.
Proof. unfold initializeApp. obeying. Qed.

Lemma updateChatTitleFromFirstMessage_quiet m :
  obeys R_quiet not_ask None (updateChatTitleFromFirstMessage m).
Proof. unfold updateChatTitleFromFirstMessage. obeying. Qed.

Lemma addMessageLocally_quiet ty text :
  obeys R_quiet not_ask None (addMessageLocally ty text).
Proof. unfold addMessageLocally. obeying. Qed.

Lemma obeys_mono {A : Type} (R R' : App -> App -> Prop) (Q Q' : request -> Prop)
      (p : prog A) :
  (forall a a', R a a' -> R' a a') -> (forall r, Q r -> Q' r) ->
  forall cur, obeys R Q cur p -> obeys R' Q' cur p.
Proof.
  intros HR HQ.
  induction p as [A a|A k IH|A a k IH|A k IH|A h k IH|A r k IH|A rs k IH|A q IHq k IH];
    intros cur H; cbn in *.
  - exact I.
  - intros a0 Ha. apply IH. apply H. exact Ha.
  - destruct H as [H1 H2]. split; [|apply IH; exact H2].
    destruct cur; [apply HR; exact H1|exact H1].
  - intros t. apply IH. apply H.
  - apply IH. exact H.
  - destruct H as [H1 H2]. split; [apply HQ; exact H1|]. intros res. apply IH. apply H2.
  - destruct H as [H1 H2]. split.
    + eapply Forall_impl; [|exact H1]. exact HQ.
    + intros res. apply IH. apply H2.
  - destruct H as [H1 H2]. split; [apply IHq; exact H1|apply IH; exact H2].
Qed.

Section Pool.

Variable R : App -> App -> Prop.

Variable Q : request -> Prop.

Lemma remove_nth_Forall {A : Type} (P : A -> Prop) (l : list A) : forall n,
  Forall P l -> Forall P (remove_nth n l).
Proof.
  induction l as [|x l IH]; intros n H; destruct n; cbn; auto.
  - inversion H; assumption.
  - inversion H; subst. constructor; auto.
Qed.

Lemma replace_nth_Forall {A : Type} (P : A -> Prop) (y : A) (l : list A) : forall n,
  P y -> Forall P l -> Forall P (replace_nth n y l).
Proof.
  induction l as [|x l IH]; intros n Hy H; destruct n; cbn; auto.
  - inversion H; subst. constructor; assumption.
  - inversion H; subst. constructor; auto.
Qed.

Lemma nth_error_Forall {A : Type} (P : A -> Prop) (l : list A) (n : nat) (x : A) :
  Forall P l -> nth_error l n = Some x -> P x.
Proof.
  intros H Hn. apply nth_error_In in Hn. rewrite Forall_forall in H. auto.
Qed.

Lemma fulfil_requests (slots : list (request * bool)) : forall slot,
  map fst (fulfil slot slots) = map fst slots.
Proof.
  induction slots as [|[r b] l IH]; intros slot; destruct slot; cbn; auto.
  now rewrite IH.
Qed.

Lemma start_obeys (p : prog unit) (c : config) :
  obeys R Q None p ->
  Forall (obeys_waiting R Q) (pool c) ->
  Forall (obeys_waiting R Q) (pool (start p c)) /\
  clos_refl_trans App R (app (cworld c)) (app (cworld (start p c))).
Proof.
  intros Hp Hc. unfold start.
  destruct (obeys_run R Q p None (cworld c) Hp I) as (S1 & S2 & S3 & _).
  destruct (run p (cworld c)) as [[w sp] st]. cbn [fst snd cworld pool] in *.
  split; [|exact S1].
  apply Forall_app. split; [exact Hc|]. apply Forall_app. split; [exact S2|].
  destruct st; cbn; constructor; auto.
Qed.

Lemma settle_obeys (task slot : nat) (res : fetch_result) (c : config) :
  Forall (obeys_waiting R Q) (pool c) ->
  Forall (obeys_waiting R Q) (pool (settle task slot res c)) /\
  clos_refl_trans App R (app (cworld c)) (app (cworld (settle task slot res c))).
Proof.
  intros Hc. unfold settle.
  destruct (nth_error (pool c) task) as [wt|] eqn:E; [|split; [exact Hc|apply rt_refl]].
  pose proof (nth_error_Forall _ _ _ _ Hc E) as Hwt.
  destruct wt as [r k|slots k]; cbn in Hwt; destruct Hwt as [H1 H2].
  - apply (start_obeys (k res)
             (mkConfig (cworld c) (remove_nth task (pool c)) (abandoned c)));
      [apply H2|]. cbn. apply remove_nth_Forall. exact Hc.
  - destruct res as [|ok data].
    + apply (start_obeys (k AnyRejected)
               (mkConfig (cworld c) (remove_nth task (pool c))
                  (abandoned c ++
                   map fst (filter (fun s => negb (snd s)) (remove_nth slot slots)))));
        [apply H2|]. cbn. apply remove_nth_Forall. exact Hc.
    + destruct (forallb snd (fulfil slot slots)).
      * apply (start_obeys (k AllFulfilled)
                 (mkConfig (cworld c) (remove_nth task (pool c)) (abandoned c)));
          [apply H2|]. cbn. apply remove_nth_Forall. exact Hc.
      * cbn. split; [|apply rt_refl].
        apply replace_nth_Forall; [|exact Hc]. cbn. split; [|exact H2].
        rewrite fulfil_requests. exact H1.
Qed.

End Pool.

Lemma quiet_is_store {A : Type} (p : prog A) (cur : option App) :
  obeys R_quiet not_ask cur p -> obeys R_store (fun _ => True) cur p.
Proof.
  apply obeys_mono; [intros a a' [_ H]; exact H|intros; exact I].
Qed.

Lemma sendMessage_resume_store m res :
  obeys R_store (fun _ => True) None (sendMessage_resume m res).
Proof. unfold sendMessage_resume. obeying. Qed.

Lemma sendMessage_store : obeys R_store (fun _ => True) None sendMessage.
Proof.
  unfold sendMessage. obey; try quiet_step. apply sendMessage_resume_store.
Qed.

Lemma action_store (a : action) (c : config) :
  Forall (obeys_waiting R_store (fun _ => True)) (pool c) ->
  Forall (obeys_waiting R_store (fun _ => True)) (pool (perform c a)) /\
  clos_refl_trans App R_store (app (cworld c)) (app (cworld (perform c a))).
Proof.
  intros Hc. destruct a; cbn [perform].
  - apply start_obeys; [apply quiet_is_store, initializeApp_quiet|exact Hc].
  - apply start_obeys; [apply quiet_is_store, switchToChat_quiet|exact Hc].
  - apply start_obeys; [apply quiet_is_store, createNewChat_quiet|exact Hc].
  - apply start_obeys; [apply sendMessage_store|exact Hc].
  - apply start_obeys; [apply quiet_is_store, deleteChat_quiet|exact Hc].
  - apply start_obeys; [apply quiet_is_store, clearAllChats_quiet|exact Hc].
  - cbn. split; [exact Hc|]. apply rt_step. intros H; exact H.
  - apply settle_obeys. exact Hc.
Qed.

Lemma steps_store (a a' : App) :
  clos_refl_trans App R_store a a' -> wf_store (chats a) -> wf_store (chats a').
Proof. induction 1; auto. Qed.

Lemma exec_store (actions : list action) : forall c,
  wf_store (chats (app (cworld c))) ->
  Forall (obeys_waiting R_store (fun _ => True)) (pool c) ->
  wf_store (chats (app (cworld (exec actions c)))) /\
  Forall (obeys_waiting R_store (fun _ => True)) (pool (exec actions c)).
Proof.
  unfold exec. induction actions as [|a rest IH]; intros c Hw Hc; cbn [fold_left].
  - split; assumption.
  - destruct (action_store a c Hc) as [H1 H2].
    apply IH; [|exact H1]. eapply steps_store; eauto.
Qed.

(** X1.  Whatever the user does and however the backend answers, in any
    order, the store of a client started from the constructor never holds
    two entries under one key, and every conversation is stored under its
    own [id]. *)
Theorem store_keys_distinct_and_own_ids
        (clk : nat -> Z) (width : Z) (actions : list action) :
  wf_store (chats (app (cworld (exec actions (boot clk width))))).
Proof.
  apply exec_store; [apply wf_empty|constructor].
Qed.

(** ** At most one exchange in flight (sendMessage) *)

Lemma closing_sender (wt : waiting unit) : closing wt -> sender wt.
Proof.
  destruct wt as [r k|slots k]; cbn; [|auto].
  intros [_ H] res w _. destruct (H res w) as (w' & Hr & Hl).
  exists w', [], (Finished tt). repeat split; auto.
Qed.

Lemma steps_flag (a a' : App) :
  clos_refl_trans App R_quiet a a' -> isLoading a' = isLoading a.
Proof.
  induction 1 as [a a' [H _]| |]; [exact H|reflexivity|congruence].
Qed.

(** What a quiet call does to a configuration. *)
Lemma run_quiet (p : prog unit) (w : world) :
  obeys R_quiet not_ask None p ->
  isLoading (app (fst (fst (run p w)))) = isLoading (app w) /\
  Forall quiet_waiting (snd (fst (run p w)) ++ own_waiting (snd (run p w))).
Proof.
  intros Hp.
  destruct (obeys_run R_quiet not_ask p None w Hp I) as (S1 & S2 & S3 & _).
  split; [apply steps_flag; exact S1|].
  apply Forall_app. split; [exact S2|].
  destruct (snd (run p w)); cbn; constructor; auto.
Qed.

Lemma start_pool (p : prog unit) (c : config) :
  start p c =
  mkConfig (fst (fst (run p (cworld c))))
           (pool c ++ snd (fst (run p (cworld c))) ++ own_waiting (snd (run p (cworld c))))
           (abandoned c).
Proof. unfold start. destruct (run p (cworld c)) as [[w sp] st]. reflexivity. Qed.

Lemma start_quiet (p : prog unit) (c : config) :
  obeys R_quiet not_ask None p -> single_flight c -> single_flight (start p c).
Proof.
  intros Hp Hc. rewrite start_pool.
  destruct (run_quiet p (cworld c) Hp) as [Hf Hn].
  destruct Hc as [[Hl Hq]|[Hl (l1 & s & l2 & Hpool & Hs & H1 & H2)]].
  - left. cbn [cworld pool]. split; [congruence|]. apply Forall_app. split; assumption.
  - right. cbn [cworld pool]. split; [congruence|].
    exists l1, s, (l2 ++ snd (fst (run p (cworld c))) ++ own_waiting (snd (run p (cworld c)))).
    split; [rewrite Hpool, <- app_assoc; reflexivity|].
    split; [exact Hs|]. split; [exact H1|]. apply Forall_app. split; assumption.
Qed.

Lemma nth_error_middle {A : Type} (l1 l2 : list A) (s x : A) : forall n,
  nth_error (l1 ++ s :: l2) n = Some x ->
  (nth_error l1 n = Some x /\
   remove_nth n (l1 ++ s :: l2) = remove_nth n l1 ++ s :: l2 /\
   forall y, replace_nth n y (l1 ++ s :: l2) = replace_nth n y l1 ++ s :: l2) \/
  (x = s /\
   remove_nth n (l1 ++ s :: l2) = l1 ++ l2 /\
   forall y, replace_nth n y (l1 ++ s :: l2) = l1 ++ y :: l2) \/
  (exists j, nth_error l2 j = Some x /\
   remove_nth n (l1 ++ s :: l2) = l1 ++ s :: remove_nth j l2 /\
   forall y, replace_nth n y (l1 ++ s :: l2) = l1 ++ s :: replace_nth j y l2).
Proof.
  induction l1 as [|a l1 IH]; intros n H.
  - destruct n as [|n]; cbn in H.
    + right. left. injection H as <-. repeat split.
    + right. right. exists n. cbn. repeat split; auto.
  - destruct n as [|n]; cbn in H.
    + left. cbn. repeat split; auto.
    + destruct (IH n H) as [(E1 & E2 & E3)|[(E1 & E2 & E3)|(j & E1 & E2 & E3)]].
      * left. cbn. rewrite E2. repeat split; auto. intros y. now rewrite E3.
      * right. left. cbn. rewrite E2. repeat split; auto. intros y. now rewrite E3.
      * right. right. exists j. cbn. rewrite E2. repeat split; auto.
        intros y. now rewrite E3.
Qed.

Lemma sendMessage_resume_sender (m : string) (r : request) :
  sender (WFetch r (sendMessage_resume m)).
Proof.
  cbn. intros res w Hl.
  assert (Hrep : isLoading (app (reply_appended res w)) = true).
  { unfold reply_appended.
    rewrite (proj2 (addMessageLocally_keeps_selection _ _ _)). exact Hl. }
  destruct (exchange_succeeded res) as [reply|] eqn:E.
  - destruct (resume_success m res reply w E) as (k & Hrun & Hk).
    destruct (run_quiet (updateChatTitleFromFirstMessage m) (reply_appended res w)
                (updateChatTitleFromFirstMessage_quiet m)) as [Hf Hq].
    do 3 eexists. split; [exact Hrun|]. split; [exact Hq|].
    split.
    + cbn [app log]. unfold world_after. rewrite Hf. exact Hrep.
    + cbn. split; [exact I|]. intros r' w4.
      destruct (Hk r' w4) as (w5 & H5 & H6 & _). exists w5. split; assumption.
  - do 3 eexists. split; [apply resume_failure; exact E|].
    split; [constructor|]. reflexivity.
Qed.

Lemma start_sendMessage (c : config) :
  single_flight c -> single_flight (start sendMessage c).
Proof.
  intros Hc.
  assert (Hrej : run sendMessage (cworld c) = (cworld c, [], Finished tt) ->
                 single_flight (start sendMessage c)).
  { intros Hr. rewrite start_pool, Hr. cbn [fst snd own_waiting].
    rewrite !app_nil_r. destruct c. exact Hc. }
  destruct Hc as [[Hl Hq]|[Hl Hrest]].
  - destruct (String.eqb_spec (Str.trim (input (app (cworld c)))) "") as [He|Hne].
    + apply Hrej. apply sendMessage_rejects. left. exact He.
    + rewrite start_pool, (sendMessage_suspends (cworld c) Hne Hl).
      cbn [fst snd own_waiting List.app].
      right. cbn [cworld pool]. split.
      * unfold send_started. cbn [app log put_app isLoading set_input].
        rewrite (proj2 (addMessageLocally_keeps_selection _ _ _)). reflexivity.
      * exists (pool c), (WFetch (POST_ask (Str.trim (input (app (cworld c))))
                                   (currentChatId (app (cworld c))))
                            (sendMessage_resume (Str.trim (input (app (cworld c)))))), [].
        split; [reflexivity|]. split; [apply sendMessage_resume_sender|].
        split; [exact Hq|constructor].
  - apply Hrej. apply sendMessage_rejects. right. exact Hl.
Qed.

Lemma settle_single_flight (task slot : nat) (res : fetch_result) (c : config) :
  single_flight c -> single_flight (settle task slot res c).
Proof.
  intros Hc. unfold settle.
  destruct (nth_error (pool c) task) as [wt|] eqn:E; [|exact Hc].
  (* a quiet call settles: the pool without it, or with its slot fulfilled,
     is still in single flight *)
  assert (Hquiet :
            quiet_waiting wt ->
            single_flight (mkConfig (cworld c) (remove_nth task (pool c)) (abandoned c)) ->
            (forall y, quiet_waiting y ->
               single_flight (mkConfig (cworld c)
                               (replace_nth task y (pool c)) (abandoned c))) ->
            single_flight
              match wt with
              | WFetch _ k =>
                  start (k res) (mkConfig (cworld c) (remove_nth task (pool c)) (abandoned c))
              | WAll slots k =>
                  match res with
                  | Rejected =>
                      start (k AnyRejected)
                        (mkConfig (cworld c) (remove_nth task (pool c))
                           (abandoned c ++
                            map fst (filter (fun s => negb (snd s))
                                       (remove_nth slot slots))))
                  | Resolved _ _ =>
                      if forallb snd (fulfil slot slots)
                      then start (k AllFulfilled)
                             (mkConfig (cworld c) (remove_nth task (pool c))
                                (abandoned c))
                      else mkConfig (cworld c)
                             (replace_nth task (WAll (fulfil slot slots) k) (pool c))
                             (abandoned c)
                  end
              end).
  { intros Hwt Hrest Hrep.
    destruct wt as [r k|slots k]; destruct Hwt as [H1 H2].
    - apply start_quiet; [apply H2|exact Hrest].
    - destruct res as [|ok data].
      + apply start_quiet; [apply H2|exact Hrest].
      + destruct (forallb snd (fulfil slot slots)).
        * apply start_quiet; [apply H2|exact Hrest].
        * apply Hrep. split; [|exact H2]. rewrite fulfil_requests. exact H1. }
  destruct Hc as [[Hl Hq]|[Hl (l1 & s & l2 & Hpool & Hs & H1 & H2)]].
  - apply Hquiet.
    + eapply nth_error_Forall; eauto.
    + left. split; [exact Hl|]. apply remove_nth_Forall. exact Hq.
    + intros y Hy. left. split; [exact Hl|]. apply replace_nth_Forall; assumption.
  - rewrite Hpool in E.
    destruct (nth_error_middle l1 l2 s wt task E)
      as [(E1 & E2 & E3)|[(E1 & E2 & E3)|(j & E1 & E2 & E3)]].
    + apply Hquiet.
      * exact (nth_error_Forall _ _ _ _ H1 E1).
      * right. split; [exact Hl|]. cbn [pool]. rewrite Hpool, E2.
        exists (remove_nth task l1), s, l2. repeat split; auto.
        apply remove_nth_Forall. exact H1.
      * intros y Hy. right. split; [exact Hl|]. cbn [pool]. rewrite Hpool, E3.
        exists (replace_nth task y l1), s, l2. repeat split; auto.
        apply replace_nth_Forall; assumption.
    + subst wt. rewrite Hpool, E2.
      destruct s as [r k|slots k]; [|destruct Hs].
      destruct (Hs res (cworld c) Hl) as (w' & sp & st & Hrun & Hsp & Hst).
      rewrite start_pool. cbn [cworld pool abandoned]. rewrite Hrun.
      cbn [fst snd]. destruct st as [[]|wt'].
      * left. cbn [cworld pool own_waiting]. split; [exact Hst|].
        rewrite app_nil_r. apply Forall_app. split; [|exact Hsp].
        apply Forall_app. split; assumption.
      * right. destruct Hst as [Hl' Hcl]. cbn [cworld pool own_waiting].
        split; [exact Hl'|].
        exists ((l1 ++ l2) ++ sp), wt', [].
        split; [repeat rewrite <- app_assoc; reflexivity|].
        split; [apply closing_sender; exact Hcl|]. split; [|constructor].
        apply Forall_app. split; [|exact Hsp]. apply Forall_app. split; assumption.
    + apply Hquiet.
      * exact (nth_error_Forall _ _ _ _ H2 E1).
      * right. split; [exact Hl|]. cbn [pool]. rewrite Hpool, E2.
        exists l1, s, (remove_nth j l2). repeat split; auto.
        apply remove_nth_Forall. exact H2.
      * intros y Hy. right. split; [exact Hl|]. cbn [pool]. rewrite Hpool, E3.
        exists l1, s, (replace_nth j y l2). repeat split; auto.
        apply replace_nth_Forall; assumption.
Qed.

Lemma perform_single_flight (a : action) (c : config) :
  single_flight c -> single_flight (perform c a).
Proof.
  intros Hc. destruct a; cbn [perform].
  - apply start_quiet; [apply initializeApp_quiet|exact Hc].
  - apply start_quiet; [apply switchToChat_quiet|exact Hc].
  - apply start_quiet; [apply createNewChat_quiet|exact Hc].
  - apply start_sendMessage. exact Hc.
  - apply start_quiet; [apply deleteChat_quiet|exact Hc].
  - apply start_quiet; [apply clearAllChats_quiet|exact Hc].
  - exact Hc.
  - apply settle_single_flight. exact Hc.
Qed.

Lemma quiet_no_ask (wt : waiting unit) :
  quiet_waiting wt -> filter is_ask (awaited wt) = [].
Proof.
  destruct wt as [r k|slots k]; cbn; intros [H _].
  - destruct r; cbn in *; try reflexivity. contradiction.
  - induction slots as [|[r b] slots IH]; cbn in *; [reflexivity|].
    inversion H; subst. destruct b; cbn; [apply IH; assumption|].
    destruct r; cbn in *; try (apply IH; assumption). contradiction.
Qed.

Lemma quiet_pool_no_ask (l : list (waiting unit)) :
  Forall quiet_waiting l -> filter is_ask (flat_map awaited l) = [].
Proof.
  induction 1 as [|wt l Hwt _ IH]; cbn; [reflexivity|].
  rewrite filter_app, (quiet_no_ask wt Hwt), IH. reflexivity.
Qed.

Lemma exec_single_flight (actions : list action) : forall c,
  single_flight c -> single_flight (exec actions c).
Proof.
  unfold exec. induction actions as [|a rest IH]; intros c Hc; cbn [fold_left].
  - exact Hc.
  - apply IH. apply perform_single_flight. exact Hc.
Qed.

(** X2.  In every state a client started from the constructor can reach,
    at most one [POST /ask] is in flight; none is while [isLoading] is
    false, and while [isLoading] is true some call is still suspended, so
    the flag is never left up with nothing to release it. *)
Theorem at_most_one_exchange_in_flight
        (clk : nat -> Z) (width : Z) (actions : list action) :
  let c := exec actions (boot clk width) in
  (List.length (filter is_ask (in_flight c)) <= 1)%nat /\
  (isLoading (app (cworld c)) = false -> filter is_ask (in_flight c) = []) /\
  (isLoading (app (cworld c)) = true -> in_flight c <> []).
Proof.
  intros c.
  assert (Hsf : single_flight c).
  { apply exec_single_flight. left. split; [reflexivity|constructor]. }
  unfold in_flight.
  destruct Hsf as [[Hl Hq]|[Hl (l1 & s & l2 & Hpool & Hs & H1 & H2)]].
  - rewrite (quiet_pool_no_ask _ Hq).
    split; [cbn; lia|]. split; [reflexivity|congruence].
  - destruct s as [r k|slots k]; [|destruct Hs].
    split; [|split; [congruence|]].
    + rewrite Hpool, flat_map_app, filter_app. cbn [flat_map].
      rewrite filter_app, (quiet_pool_no_ask _ H1), (quiet_pool_no_ask _ H2).
      cbn. destruct (is_ask r); cbn; lia.
    + intros _. rewrite Hpool, flat_map_app. cbn [flat_map awaited].
      intros Habs. apply app_eq_nil in Habs. destruct Habs as [_ Habs].
      discriminate.
Qed.

(** ** The order of the chat list (sort by recency) *)

Lemma insert_by_recency_perm (x : Chat) (l : list Chat) :
  Permutation (x :: l) (insert_by_recency x l).
Proof.
  induction l as [|y l IH]; cbn; [reflexivity|].
  destruct (0 <? updatedAt y - updatedAt x); [|reflexivity].
  rewrite perm_swap. now constructor.
Qed.

Lemma insert_by_recency_sorted (x : Chat) (l : list Chat) :
  StronglySorted at_least_as_recent l ->
  StronglySorted at_least_as_recent (insert_by_recency x l).
Proof.
  induction 1 as [|y l Hs IH Hy]; cbn.
  - constructor; constructor.
  - destruct (Z.ltb_spec 0 (updatedAt y - updatedAt x)) as [Hlt|Hge].
    + constructor; [exact IH|].
      apply Forall_forall. intros z Hz.
      apply (Permutation_in _ (Permutation_sym (insert_by_recency_perm x l))) in Hz.
      destruct Hz as [<-|Hz]; [unfold at_least_as_recent; lia|].
      rewrite Forall_forall in Hy. auto.
    + constructor; [constructor; assumption|].
      constructor; [unfold at_least_as_recent; lia|].
      eapply Forall_impl; [|exact Hy]. unfold at_least_as_recent. intros; lia.
Qed.

Lemma insert_by_recency_filter (t : Z) (x : Chat) (l : list Chat) :
  filter (updated_at t) (insert_by_recency x l) = filter (updated_at t) (x :: l).
Proof.
  induction l as [|y l IH]; cbn; [reflexivity|].
  destruct (Z.ltb_spec 0 (updatedAt y - updatedAt x)) as [Hlt|Hge]; [|reflexivity].
  cbn. rewrite IH. cbn. unfold updated_at.
  destruct (Z.eqb_spec (updatedAt y) t), (Z.eqb_spec (updatedAt x) t);
    try reflexivity. lia.
Qed.

Lemma sort_by_recency_perm (l : list Chat) : Permutation l (sort_by_recency l).
Proof.
  unfold sort_by_recency. induction l as [|x l IH]; cbn; [constructor|].
  rewrite <- insert_by_recency_perm. now constructor.
Qed.

Lemma sort_by_recency_sorted (l : list Chat) :
  StronglySorted at_least_as_recent (sort_by_recency l).
Proof.
  unfold sort_by_recency. induction l as [|x l IH]; cbn; [constructor|].
  apply insert_by_recency_sorted. exact IH.
Qed.

Lemma sort_by_recency_filter (t : Z) (l : list Chat) :
  filter (updated_at t) (sort_by_recency l) = filter (updated_at t) l.
Proof.
  unfold sort_by_recency. induction l as [|x l IH]; cbn; [reflexivity|].
  rewrite insert_by_recency_filter. cbn. now rewrite IH.
Qed.

Lemma sort_by_recency_head (l : list Chat) (first : Chat) (rest : list Chat) :
  sort_by_recency l = first :: rest ->
  In first l /\ forall c, In c l -> updatedAt c <= updatedAt first.
Proof.
  intros E. pose proof (sort_by_recency_perm l) as Hp.
  pose proof (sort_by_recency_sorted l) as Hs. rewrite E in Hp, Hs.
  split.
  - apply (Permutation_in _ (Permutation_sym Hp)). left. reflexivity.
  - intros c Hc. apply (Permutation_in _ Hp) in Hc.
    destruct Hc as [<-|Hc]; [lia|].
    inversion Hs as [|? ? _ Hall]; subst. rewrite Forall_forall in Hall.
    apply Hall. exact Hc.
Qed.

(** X3.  The sort of [initializeApp] and [renderChatList] rearranges the
    conversations without losing or repeating any, puts every conversation
    before all those updated earlier, and keeps the conversations updated
    at the same time in the order they had. *)
Theorem sort_by_recency_stable_descending (l : list Chat) :
  Permutation l (sort_by_recency l) /\
  StronglySorted at_least_as_recent (sort_by_recency l) /\
  forall t, filter (updated_at t) (sort_by_recency l) = filter (updated_at t) l.
Proof.
  split; [apply sort_by_recency_perm|].
  split; [apply sort_by_recency_sorted|].
  intros t. apply sort_by_recency_filter.
Qed.

Lemma hydrate_returns (rows : list chat_row) : forall w,
  returns (hydrate rows) w
    (mkWorld (set_chats (fst (hydrated rows (clock w) (reads w) (chats (app w)))) (app w))
             (clock w)
             (snd (hydrated rows (clock w) (reads w) (chats (app w))))
             (trace w)) tt.
Proof.
  induction rows as [|row rest IH]; intros w.
  - unfold returns. cbn. destruct w as [[] ? ? ?]. reflexivity.
  - unfold returns. cbn -[hydrate hydrated].
    cbn [hydrate hydrated].
    destruct (row_created_at row) as [c|]; destruct (row_updated_at row) as [u|];
      cbn -[hydrate hydrated];
      match goal with |- run (hydrate rest) ?w0 = _ => rewrite (IH w0) end;
      reflexivity.
Qed.

(** ** Bootstrap (initializeApp, loadUserMemory, loadChatsFromBackend) *)

Lemma initializeApp_suspends (w : world) :
  run initializeApp w =
    (log (EvFetch GET_user_memory) (log (EvHook ShowAppLoading) w), [],
     Blocked (WFetch GET_user_memory initializeApp_remembered)).
Proof. reflexivity. Qed.

Lemma loadUserMemory_resume_returns (res : fetch_result) (w : world) :
  returns (loadUserMemory_resume res) w (remembered res w) tt.
Proof.
  unfold returns, remembered, memory_of, loadUserMemory_resume.
  destruct res as [|[|] [data|]]; reflexivity.
Qed.

Lemma initializeApp_remembered_suspends (res : fetch_result) (w : world) :
  run (initializeApp_remembered res) w =
    (log (EvFetch GET_chats) (remembered res w), [],
     Blocked (WFetch GET_chats initializeApp_listed)).
Proof.
  unfold initializeApp_remembered.
  rewrite (returns_bind _ _ _ _ _ (loadUserMemory_resume_returns res w)).
  reflexivity.
Qed.

Lemma loadChatsFromBackend_resume_returns (res : fetch_result) (w : world) :
  returns (loadChatsFromBackend_resume res) w (listed res w)
          (match listing_of res with Some _ => true | None => false end).
Proof.
  unfold listed, listing_of, loadChatsFromBackend_resume.
  destruct res as [|[|] [data|]]; try reflexivity.
  destruct (j_chats data) as [rows|]; [|reflexivity].
  unfold returns. cbn -[hydrate hydrated].
  rewrite (returns_bind _ _ _ _ _ (hydrate_returns rows _)). reflexivity.
Qed.

Lemma hydrated_keys (rows : list chat_row) : forall clk n m k,
  In k (JsMap.keys (fst (hydrated rows clk n m))) <->
  In k (JsMap.keys m) \/ In k (map row_id rows).
Proof.
  induction rows as [|row rest IH]; intros clk n m k; cbn [hydrated map].
  - cbn. intuition.
  - destruct (row_created_at row); destruct (row_updated_at row);
      rewrite IH, keys_set_in; cbn; intuition.
Qed.

Lemma hydrated_wf (rows : list chat_row) : forall clk n m,
  wf_store m -> wf_store (fst (hydrated rows clk n m)).
Proof.
  induction rows as [|row rest IH]; intros clk n m Hm; cbn [hydrated]; [exact Hm|].
  destruct (row_created_at row); destruct (row_updated_at row);
    apply IH; apply wf_set; auto.
Qed.

Lemma set_Forall (P : string * Chat -> Prop) (k : string) (v : Chat) (m : JsMap.t) :
  P (k, v) -> Forall P m -> Forall P (JsMap.set k v m).
Proof.
  intros Hv. induction 1 as [|[k' v'] m H1 H2 IH]; cbn.
  - constructor; [exact Hv|constructor].
  - destruct (String.eqb k' k); constructor; auto.
Qed.

Lemma hydrated_unloaded (rows : list chat_row) : forall clk n m,
  Forall (fun kv => messages (snd kv) = []) m ->
  Forall (fun kv => messages (snd kv) = []) (fst (hydrated rows clk n m)).
Proof.
  induction rows as [|row rest IH]; intros clk n m Hm; cbn [hydrated]; [exact Hm|].
  destruct (row_created_at row); destruct (row_updated_at row);
    apply IH; apply set_Forall; auto.
Qed.

Lemma hydrated_nonempty (rows : list chat_row) (clk : nat -> Z) (n : nat) :
  rows <> [] -> fst (hydrated rows clk n []) <> [].
Proof.
  destruct rows as [|row rest]; [contradiction|]. intros _ E.
  assert (H : In (row_id row) (JsMap.keys (fst (hydrated (row :: rest) clk n [])))).
  { apply hydrated_keys. right. left. reflexivity. }
  rewrite E in H. exact H.
Qed.

Lemma initializeApp_select_create (loaded : bool) (w : world) :
  loaded = false \/ chats (app w) = [] ->
  run (initializeApp_select loaded) w =
    (create_started w, [],
     Blocked (WFetch (POST_chat (new_chat_id (clock w (reads w)) (chatCounter (app w)))
                                new_title)
                (initializeApp_created
                   (new_chat_id (clock w (reads w)) (chatCounter (app w)))))).
Proof.
  intros H. unfold initializeApp_select.
  cbn -[createNewChat initializeApp_finish sort_by_recency].
  assert (E : (negb loaded || Nat.eqb (JsMap.size (chats (app w))) 0)%bool = true).
  { destruct H as [->| ->]; [reflexivity|]. cbn. apply orb_true_r. }
  rewrite E. reflexivity.
Qed.

Lemma initializeApp_select_recent (w : world) (first : Chat) (rest : list Chat) :
  chats (app w) <> [] ->
  sort_by_recency (JsMap.values (chats (app w))) = first :: rest ->
  id first <> "" ->
  run (initializeApp_select true) w =
    (log (EvFetch (GET_chat_history (id first)))
       (put_app (set_currentChatId (Some (id first)) (app w)) w), [],
     Blocked (WFetch (GET_chat_history (id first)) (initializeApp_loaded (id first)))).
Proof.
  intros Hne Hs Hid. unfold initializeApp_select.
  cbn -[createNewChat initializeApp_finish sort_by_recency loadChatHistory_resume
        JsMap.size JsMap.values Nat.eqb].
  assert (E : Nat.eqb (JsMap.size (chats (app w))) 0 = false).
  { destruct (chats (app w)); [contradiction|reflexivity]. }
  rewrite E, Hs.
  cbn -[createNewChat initializeApp_finish sort_by_recency loadChatHistory_resume].
  unfold loadChatHistory. apply String.eqb_neq in Hid. rewrite Hid. reflexivity.
Qed.

Lemma initializeApp_finish_returns (w : world) :
  returns initializeApp_finish w (initialized w) tt.
Proof. reflexivity. Qed.

Lemma initializeApp_loaded_returns (chatId : string) (res : fetch_result) (w : world) :
  returns (initializeApp_loaded chatId res) w
          (initialized (rendered (loaded chatId res w))) tt.
Proof.
  unfold initializeApp_loaded.
  destruct (loadChatHistory_resume_returns chatId res w) as (b & Hb).
  eapply returns_seq; [|apply initializeApp_finish_returns].
  eapply returns_seq; [exact Hb|reflexivity].
Qed.

Lemma initializeApp_created_returns (chatId : string) (res : fetch_result) (w : world) :
  returns (initializeApp_created chatId res) w
          (initialized (world_after (createNewChat_resume chatId res) w)) tt.
Proof.
  unfold initializeApp_created.
  eapply returns_seq; [|apply initializeApp_finish_returns].
  destruct (confirmed_by res) eqn:E.
  - apply (createNewChat_resume_confirmed chatId res w E).
  - unfold returns, world_after. rewrite (createNewChat_resume_refused chatId res w E).
    reflexivity.
Qed.

Lemma start_blocked (p : prog unit) (w w' : world) (wt : waiting unit)
      (pl : list (waiting unit)) (ab : list request) :
  run p w = (w', [], Blocked wt) ->
  start p (mkConfig w pl ab) = mkConfig w' (pl ++ [wt]) ab.
Proof. unfold start. cbn [cworld pool abandoned]. intros ->. reflexivity. Qed.

(** The configuration of a fresh client once the memory and the listing
    requests of its bootstrap have settled, up to the selection. *)
Lemma bootstrap_listed (clk : nat -> Z) (width : Z) (rm rl : fetch_result) :
  exec [CallInit; Settle 0 0 rm; Settle 0 0 rl] (boot clk width) =
  start (initializeApp_listed rl)
    (mkConfig
       (log (EvFetch GET_chats)
          (remembered rm
             (log (EvFetch GET_user_memory)
                (log (EvHook ShowAppLoading) (mkWorld (new_app width) clk 0 [])))))
       [] []).
Proof.
  unfold exec, boot. cbn [fold_left perform].
  rewrite (start_blocked _ _ _ _ _ _ (initializeApp_suspends _)).
  cbn [List.app]. rewrite settle_first.
  rewrite (start_blocked _ _ _ _ _ _ (initializeApp_remembered_suspends rm _)).
  cbn [List.app]. rewrite settle_first. reflexivity.
Qed.

Lemma values_in_keys (m : JsMap.t) (c : Chat) :
  wf_store m -> In c (JsMap.values m) -> In (id c) (JsMap.keys m).
Proof.
  intros [_ Hi] Hc. unfold JsMap.values, JsMap.keys in *.
  apply in_map_iff in Hc. destruct Hc as ([k v] & <- & Hin).
  rewrite Forall_forall in Hi. rewrite (Hi _ Hin). cbn.
  apply in_map_iff. exists (k, v). split; [reflexivity|exact Hin].
Qed.

Lemma remembered_frame (res : fetch_result) (w : world) :
  trace (remembered res w) = trace w /\
  chats (app (remembered res w)) = chats (app w) /\
  currentChatId (app (remembered res w)) = currentChatId (app w) /\
  chatCounter (app (remembered res w)) = chatCounter (app w) /\
  clock (remembered res w) = clock w /\ reads (remembered res w) = reads w.
Proof. unfold remembered. destruct (memory_of res); repeat split. Qed.

(** X4.  Bootstrap with a listing of at least one row, all with a
    non-empty id: once the memory and the listing requests have settled
    (the memory with any outcome), the current conversation is one of the
    store with the greatest [updatedAt], its history is the only request in
    flight and nothing has been rendered yet; when that request settles,
    with any outcome, the selection is kept, the page is rendered, the
    loading screen is hidden and the client is initialised, and an answer
    without a history leaves the store as it was. *)
Theorem bootstrap_selects_most_recent
        (clk : nat -> Z) (width : Z) (rm rl : fetch_result)
        (rows : list chat_row) (rh : fetch_result) :
  listing_of rl = Some rows ->
  rows <> [] ->
  Forall (fun r => row_id r <> "") rows ->
  let c := exec [CallInit; Settle 0 0 rm; Settle 0 0 rl] (boot clk width) in
  exists first,
    In first (JsMap.values (chats (app (cworld c)))) /\
    (forall x, In x (JsMap.values (chats (app (cworld c)))) ->
               updatedAt x <= updatedAt first) /\
    currentChatId (app (cworld c)) = Some (id first) /\
    in_flight c = [GET_chat_history (id first)] /\
    trace (cworld c) =
      [EvHook ShowAppLoading; EvFetch GET_user_memory; EvFetch GET_chats;
       EvFetch (GET_chat_history (id first))] /\
    let c' := settle 0 0 rh c in
    in_flight c' = [] /\
    currentChatId (app (cworld c')) = Some (id first) /\
    isInitialized (app (cworld c')) = true /\
    trace (cworld c') =
      trace (cworld c) ++
      [EvHook UpdateChatTitle; EvHook RenderChatList; EvHook RenderMessages;
       EvHook HideAppLoading] /\
    (history_of rh = None -> chats (app (cworld c')) = chats (app (cworld c))).
Proof.
  intros Hl Hrows Hids c. unfold c. clear c. rewrite bootstrap_listed.
  set (w0 := log (EvFetch GET_chats) (remembered rm _)).
  pose proof (loadChatsFromBackend_resume_returns rl w0) as Hret.
  rewrite Hl in Hret.
  assert (Hlisted : listed rl w0 =
            mkWorld (set_chats (fst (hydrated rows (clock w0) (reads w0) [])) (app w0))
              (clock w0) (snd (hydrated rows (clock w0) (reads w0) [])) (trace w0)).
  { unfold listed. rewrite Hl. reflexivity. }
  set (m := fst (hydrated rows (clock w0) (reads w0) [])) in *.
  assert (Hm : m <> []) by (apply hydrated_nonempty; exact Hrows).
  assert (Hwf : wf_store m) by (apply hydrated_wf, wf_empty).
  destruct (sort_by_recency (JsMap.values m)) as [|first rest] eqn:Hs.
  { exfalso. pose proof (sort_by_recency_perm (JsMap.values m)) as Hp.
    rewrite Hs in Hp. apply Permutation_sym, Permutation_nil in Hp.
    destruct m; [contradiction|discriminate]. }
  destruct (sort_by_recency_head _ _ _ Hs) as [Hin Hmax].
  assert (Hid : id first <> "").
  { pose proof (values_in_keys m first Hwf Hin) as Hk.
    apply (hydrated_keys rows (clock w0) (reads w0) [] (id first)) in Hk.
    destruct Hk as [[]|Hk]. apply in_map_iff in Hk. destruct Hk as (r & Hr & Hrin).
    rewrite Forall_forall in Hids. rewrite <- Hr. apply Hids. exact Hrin. }
  assert (Hrun : run (initializeApp_listed rl) w0 =
            (log (EvFetch (GET_chat_history (id first)))
               (put_app (set_currentChatId (Some (id first)) (app (listed rl w0)))
                        (listed rl w0)), [],
             Blocked (WFetch (GET_chat_history (id first))
                        (initializeApp_loaded (id first))))).
  { unfold initializeApp_listed. rewrite (returns_bind _ _ _ _ _ Hret).
    apply (initializeApp_select_recent (listed rl w0) first rest).
    - rewrite Hlisted. exact Hm.
    - rewrite Hlisted. exact Hs.
    - exact Hid. }
  rewrite (start_blocked _ _ _ _ _ _ Hrun). cbn [List.app].
  exists first. cbn [cworld app log put_app chats set_currentChatId currentChatId].
  rewrite Hlisted. cbn [app chats set_chats].
  split; [exact Hin|]. split; [exact Hmax|]. split; [reflexivity|].
  split; [reflexivity|]. split.
  { cbn [trace log]. unfold w0. cbn [trace log].
    rewrite (proj1 (remembered_frame rm _)). reflexivity. }
  cbv zeta. rewrite settle_first.
  rewrite (start_returns _ _ _ _ _ (initializeApp_loaded_returns (id first) rh _)).
  cbn [cworld pool in_flight flat_map].
  unfold initialized, rendered.
  cbn [app log put_app currentChatId isInitialized set_isInitialized trace chats].
  destruct (loaded_frame (id first) rh
              (log (EvFetch (GET_chat_history (id first)))
                 (put_app (set_currentChatId (Some (id first))
                    (set_chats m (app w0)))
                    (mkWorld (set_chats m (app w0)) (clock w0)
                       (snd (hydrated rows (clock w0) (reads w0) [])) (trace w0)))))
    as (Ft & Fc & _ & _).
  split; [reflexivity|]. split; [rewrite Fc; reflexivity|]. split; [reflexivity|].
  split.
  { rewrite Ft. cbn [trace log]. repeat rewrite <- app_assoc. reflexivity. }
  intros Hh.
  pose proof (loaded_chats (id first) rh
              (log (EvFetch (GET_chat_history (id first)))
                 (put_app (set_currentChatId (Some (id first))
                    (set_chats m (app w0)))
                    (mkWorld (set_chats m (app w0)) (clock w0)
                       (snd (hydrated rows (clock w0) (reads w0) [])) (trace w0)))))
    as Hc.
  rewrite Hh in Hc. rewrite Hc. reflexivity.
Qed.

(** X5.  Bootstrap without conversations (the listing failed, or it is
    empty): the client asks the backend for one new conversation, with the
    id made of the first clock reading and the counter 1, and selects
    nothing before the answer; a confirmed answer makes that conversation
    the only one and the current one, a refused one leaves the store empty
    and nothing selected; either way the client ends initialised. *)
Theorem bootstrap_without_chats_creates_one
        (clk : nat -> Z) (width : Z) (rm rl rc : fetch_result) :
  listing_of rl = None \/ listing_of rl = Some [] ->
  let newId := new_chat_id (clk 0%nat) 1 in
  let c := exec [CallInit; Settle 0 0 rm; Settle 0 0 rl] (boot clk width) in
  in_flight c = [POST_chat newId new_title] /\
  chats (app (cworld c)) = [] /\
  currentChatId (app (cworld c)) = None /\
  let c' := settle 0 0 rc c in
  in_flight c' = [] /\
  isInitialized (app (cworld c')) = true /\
  (confirmed_by rc = true ->
   exists chat,
     chats (app (cworld c')) = [(newId, chat)] /\
     id chat = newId /\ messages chat = [] /\
     currentChatId (app (cworld c')) = Some newId) /\
  (confirmed_by rc = false ->
   chats (app (cworld c')) = [] /\ currentChatId (app (cworld c')) = None).
Proof.
  intros Hl newId c. unfold c. clear c. rewrite bootstrap_listed.
  set (w0 := log (EvFetch GET_chats) (remembered rm _)).
  pose proof (loadChatsFromBackend_resume_returns rl w0) as Hret.
  destruct (remembered_frame rm
              (log (EvFetch GET_user_memory)
                 (log (EvHook ShowAppLoading) (mkWorld (new_app width) clk 0 []))))
    as (_ & Rc & Rs & Rn & Rk & Rr).
  assert (Hw : chats (app (listed rl w0)) = [] /\
               currentChatId (app (listed rl w0)) = None /\
               chatCounter (app (listed rl w0)) = 1 /\
               clock (listed rl w0) = clk /\ reads (listed rl w0) = 0%nat).
  { unfold listed. destruct Hl as [-> | ->]; cbn; unfold w0; cbn;
      rewrite ?Rc, ?Rs, ?Rn, ?Rk, ?Rr; repeat split. }
  destruct Hw as (Wc & Ws & Wn & Wk & Wr).
  assert (Hrun : run (initializeApp_listed rl) w0 =
            (create_started (listed rl w0), [],
             Blocked (WFetch (POST_chat newId new_title)
                        (initializeApp_created newId)))).
  { unfold initializeApp_listed. rewrite (returns_bind _ _ _ _ _ Hret).
    rewrite (initializeApp_select_create _ (listed rl w0)).
    - rewrite Wk, Wr, Wn. reflexivity.
    - right. exact Wc. }
  rewrite (start_blocked _ _ _ _ _ _ Hrun). cbn [List.app].
  cbn [cworld in_flight pool flat_map awaited List.app].
  unfold create_started at 1 2. cbn [app log put_app chats currentChatId set_chatCounter].
  split; [reflexivity|]. split; [exact Wc|]. split; [exact Ws|].
  cbv zeta. rewrite settle_first.
  rewrite (start_returns _ _ _ _ _ (initializeApp_created_returns newId rc _)).
  cbn [cworld pool in_flight flat_map]. unfold initialized.
  cbn [app log put_app isInitialized set_isInitialized chats currentChatId].
  split; [reflexivity|]. split; [reflexivity|]. split.
  - intros Hc.
    destruct (createNewChat_resume_confirmed newId rc (create_started (listed rl w0)) Hc)
      as (_ & Hch & Hcur).
    rewrite Hch, Hcur. unfold create_started. cbn [app log put_app chats set_chatCounter].
    rewrite Wc. eexists. repeat split.
  - intros Hc. unfold world_after.
    rewrite (createNewChat_resume_refused newId rc _ Hc).
    cbn [fst app log]. unfold create_started.
    cbn [app log put_app chats currentChatId set_chatCounter]. split; assumption.
Qed.

(** ** Identifiers of new conversations (createNewChat) *)

Lemma occurs_append (c : ascii) (s1 s2 : string) :
  occurs c (s1 ++ s2)%string <-> occurs c s1 \/ occurs c s2.
Proof. induction s1 as [|a s1 IH]; cbn; [intuition|]. rewrite IH. intuition. Qed.

Lemma string_of_uint_no_underscore (d : Decimal.uint) :
  ~ occurs "_"%char (NilEmpty.string_of_uint d).
Proof.
  induction d; cbn; intros H; try contradiction;
    destruct H as [H|H]; try discriminate; auto.
Qed.

Lemma of_Z_no_underscore (n : Z) : ~ occurs "_"%char (Str.of_Z n).
Proof.
  unfold Str.of_Z, NilZero.string_of_int, NilZero.string_of_uint.
  destruct (Z.to_int n) as [d|d]; destruct d; cbn;
    intros H; repeat (destruct H as [H|H]; try discriminate);
    try contradiction;
    match goal with
    | H : occurs _ (NilEmpty.string_of_uint ?d) |- _ =>
        exact (string_of_uint_no_underscore d H)
    end.
Qed.

Lemma of_Z_injective (n n' : Z) : Str.of_Z n = Str.of_Z n' -> n = n'.
Proof.
  unfold Str.of_Z. intros H.
  assert (Hn : forall z, NilZero.int_of_string (NilZero.string_of_int (Z.to_int z))
                         = Some (Z.to_int z)).
  { intros z. apply NilZero.isi; destruct z; cbn; try discriminate;
      intros [= E]; exact (Unsigned.to_uint_nonnil _ E). }
  apply DecimalZ.to_int_inj.
  pose proof (Hn n) as H1. rewrite H, Hn in H1. congruence.
Qed.

Lemma split_at_underscore (s1 s1' s2 s2' : string) :
  ~ occurs "_"%char s1 -> ~ occurs "_"%char s1' ->
  (s1 ++ String "_" s2 = s1' ++ String "_" s2')%string ->
  s1 = s1' /\ s2 = s2'.
Proof.
  revert s1'. induction s1 as [|a s1 IH]; intros s1' H1 H1' E.
  - destruct s1' as [|a' s1']; cbn in *.
    + injection E as ->. auto.
    + injection E as <- _. exfalso. apply H1'. left. reflexivity.
  - destruct s1' as [|a' s1']; cbn in *.
    + injection E as -> _. exfalso. apply H1. left. reflexivity.
    + injection E as -> E. destruct (IH s1') as [-> ->]; auto.
Qed.

(** X10.  The identifier of a new conversation determines the clock
    reading and the counter it was made of: two identifiers are equal only
    when both agree. *)
Theorem new_chat_id_injective (t1 c1 t2 c2 : Z) :
  new_chat_id t1 c1 = new_chat_id t2 c2 -> t1 = t2 /\ c1 = c2.
Proof.
  unfold new_chat_id. cbn. intros E. injection E as E.
  apply split_at_underscore in E; try apply of_Z_no_underscore.
  destruct E as [E1 E2]. split; apply of_Z_injective; assumption.
Qed.

(** ** Listing, history, creating and deleting *)

Lemma get_absent_key (k : string) (m : JsMap.t) :
  ~ In k (JsMap.keys m) -> JsMap.get k m = None.
Proof.
  unfold JsMap.keys. induction m as [|[k' v] m IH]; cbn; [reflexivity|].
  intros H. destruct (String.eqb_spec k' k) as [E|E].
  - exfalso. apply H. left. exact E.
  - apply IH. intros Hin. apply H. right. exact Hin.
Qed.

Lemma get_delete_same (k : string) (m : JsMap.t) :
  NoDup (JsMap.keys m) -> JsMap.get k (JsMap.delete k m) = None.
Proof.
  unfold JsMap.keys. induction m as [|[k' v] m IH]; cbn; [reflexivity|].
  intros Hn. apply NoDup_cons_iff in Hn. destruct Hn as [H1 H2].
  destruct (String.eqb k' k) eqn:E.
  - apply String.eqb_eq in E. subst k'. apply get_absent_key. exact H1.
  - cbn. rewrite E. apply IH. exact H2.
Qed.

Lemma get_delete_other (k k' : string) (m : JsMap.t) :
  k <> k' -> JsMap.get k' (JsMap.delete k m) = JsMap.get k' m.
Proof.
  intros Hne. induction m as [|[k0 v] m IH]; cbn; [reflexivity|].
  destruct (String.eqb k0 k) eqn:E.
  - apply String.eqb_eq in E. subst k0.
    apply String.eqb_neq in Hne. rewrite Hne. reflexivity.
  - cbn. rewrite IH. reflexivity.
Qed.

Lemma get_set_same (k : string) (v : Chat) (m : JsMap.t) :
  JsMap.get k (JsMap.set k v m) = Some v.
Proof.
  induction m as [|[k' v'] m IH]; cbn.
  - rewrite String.eqb_refl. reflexivity.
  - destruct (String.eqb k' k) eqn:E; cbn.
    + rewrite String.eqb_refl. reflexivity.
    + rewrite E. exact IH.
Qed.

Lemma get_set_other (k k' : string) (v : Chat) (m : JsMap.t) :
  k <> k' -> JsMap.get k' (JsMap.set k v m) = JsMap.get k' m.
Proof.
  intros Hne. apply String.eqb_neq in Hne.
  induction m as [|[k0 v0] m IH]; cbn.
  - rewrite Hne. reflexivity.
  - destruct (String.eqb k0 k) eqn:E; cbn.
    + apply String.eqb_eq in E. subst k0. rewrite Hne. reflexivity.
    + rewrite IH. reflexivity.
Qed.

Lemma keys_set (k : string) (v : Chat) (m : JsMap.t) :
  JsMap.keys (JsMap.set k v m) =
  match JsMap.get k m with
  | Some _ => JsMap.keys m
  | None => JsMap.keys m ++ [k]
  end.
Proof.
  unfold JsMap.keys. induction m as [|[k' v'] m IH]; cbn; [reflexivity|].
  destruct (String.eqb k' k) eqn:E; cbn.
  - apply String.eqb_eq in E. subst k'. reflexivity.
  - rewrite IH. destruct (JsMap.get k m); reflexivity.
Qed.

(** X6.  [loadChatsFromBackend] issues [GET /chats] and suspends.  An
    answer without a listing changes nothing and reports [false]; an answer
    with a listing reports [true] and replaces the store by exactly the ids
    of the listing, each once, each conversation under its own id and with
    no messages, without touching the selection or rendering. *)
Theorem listing_replaces_store_or_leaves_it (res : fetch_result) (w : world) :
  run loadChatsFromBackend w =
    (log (EvFetch GET_chats) w, [],
     Blocked (WFetch GET_chats loadChatsFromBackend_resume)) /\
  match listing_of res with
  | None => run (loadChatsFromBackend_resume res) w = (w, [], Finished false)
  | Some rows =>
      exists w',
        run (loadChatsFromBackend_resume res) w = (w', [], Finished true) /\
        (forall k, In k (JsMap.keys (chats (app w'))) <-> In k (map row_id rows)) /\
        NoDup (JsMap.keys (chats (app w'))) /\
        Forall (fun kv => id (snd kv) = fst kv /\ messages (snd kv) = [])
               (chats (app w')) /\
        currentChatId (app w') = currentChatId (app w) /\
        trace w' = trace w
  end.
Proof.
  split; [reflexivity|].
  pose proof (loadChatsFromBackend_resume_returns res w) as Hret.
  unfold listed in Hret. destruct (listing_of res) as [rows|]; [|exact Hret].
  eexists. split; [exact Hret|]. cbn [app chats set_chats currentChatId trace].
  pose proof (hydrated_wf rows (clock w) (reads w) [] wf_empty) as [Hn Hi].
  pose proof (hydrated_unloaded rows (clock w) (reads w) [] (Forall_nil _)) as Hu.
  split; [|split; [exact Hn|split; [|split; reflexivity]]].
  - intros k. rewrite hydrated_keys. cbn. intuition.
  - rewrite Forall_forall in *. intros kv Hkv. split; auto.
Qed.

(** X7.  [loadChatHistory] fetches nothing for an empty id and otherwise
    issues [GET /chat-history/{id}].  Its continuation renders nothing and
    keeps the selection, the keys of the store and every other
    conversation; it changes nothing when the conversation is unknown or
    the answer carries no history, and otherwise replaces the messages of
    the conversation by those of the answer, in the order of the answer. *)
Theorem history_load_replaces_messages_only
        (chatId : string) (res : fetch_result) (w : world) :
  (chatId = "" -> run (loadChatHistory chatId) w = (w, [], Finished false)) /\
  (chatId <> "" ->
   run (loadChatHistory chatId) w =
     (log (EvFetch (GET_chat_history chatId)) w, [],
      Blocked (WFetch (GET_chat_history chatId) (loadChatHistory_resume chatId)))) /\
  (exists b,
     run (loadChatHistory_resume chatId res) w = (loaded chatId res w, [], Finished b)) /\
  trace (loaded chatId res w) = trace w /\
  currentChatId (app (loaded chatId res w)) = currentChatId (app w) /\
  JsMap.keys (chats (app (loaded chatId res w))) = JsMap.keys (chats (app w)) /\
  (forall other, other <> chatId ->
     JsMap.get other (chats (app (loaded chatId res w))) =
     JsMap.get other (chats (app w))) /\
  (JsMap.get chatId (chats (app w)) = None \/ history_of res = None ->
   chats (app (loaded chatId res w)) = chats (app w)) /\
  (forall c rows,
     JsMap.get chatId (chats (app w)) = Some c ->
     history_of res = Some rows ->
     exists ms,
       JsMap.get chatId (chats (app (loaded chatId res w))) = Some (set_messages ms c) /\
       map what ms = map row_what rows).
Proof.
  destruct (loaded_frame chatId res w) as (Ft & Fc & _ & Fk).
  pose proof (loaded_chats chatId res w) as Hl.
  repeat apply conj; auto.
  - intros ->. reflexivity.
  - intros Hne. unfold loadChatHistory. apply String.eqb_neq in Hne. rewrite Hne.
    reflexivity.
  - apply loadChatHistory_resume_returns.
  - intros other Hne. destruct (history_of res).
    + destruct Hl as (ms & _ & ->). apply JsMapFacts.get_update_other. auto.
    + now rewrite Hl.
  - intros [Hn|Hn].
    + destruct (history_of res); [|exact Hl]. destruct Hl as (ms & _ & ->).
      apply JsMapFacts.update_absent. exact Hn.
    + rewrite Hn in Hl. exact Hl.
  - intros c rows Hg Hh. rewrite Hh in Hl. destruct Hl as (ms & Hms & ->).
    exists ms. split; [|exact Hms].
    rewrite JsMapFacts.get_update_same, Hg. reflexivity.
Qed.

(** X8.  Switching again to the conversation a switch has just selected
    does nothing: no request, no rendering, no change of the client. *)
Theorem switchToChat_twice_is_once (chatId : string) (w : world) :
  run (switchToChat chatId) (switched chatId w) = (switched chatId w, [], Finished tt).
Proof.
  apply switchToChat_current. unfold is_current.
  rewrite (proj2 (proj2 (switched_frame chatId w))). apply String.eqb_refl.
Qed.

(** X9.  [createNewChat] advances the counter and issues [POST /chat]
    before touching the store or the selection.  A refused answer shows an
    error and leaves both as they were; a confirmed answer stores an empty
    conversation titled "New Conversation" under the new id, after the
    existing keys, selects it, clears the input and keeps every other
    conversation. *)
Theorem createNewChat_adds_only_when_confirmed (res : fetch_result) (w : world) :
  let newId := new_chat_id (clock w (reads w)) (chatCounter (app w)) in
  let w1 := create_started w in
  let w2 := world_after (createNewChat_resume newId res) w1 in
  run createNewChat w =
    (w1, [], Blocked (WFetch (POST_chat newId new_title) (createNewChat_resume newId))) /\
  chats (app w1) = chats (app w) /\
  currentChatId (app w1) = currentChatId (app w) /\
  chatCounter (app w1) = chatCounter (app w) + 1 /\
  run (createNewChat_resume newId res) w1 = (w2, [], Finished tt) /\
  (confirmed_by res = false ->
   chats (app w2) = chats (app w) /\
   currentChatId (app w2) = currentChatId (app w) /\
   trace w2 = trace w1 ++ [EvHook (ShowError "Failed to create new chat")]) /\
  (confirmed_by res = true ->
   exists chat,
     JsMap.get newId (chats (app w2)) = Some chat /\
     id chat = newId /\ title chat = new_title /\ messages chat = [] /\
     currentChatId (app w2) = Some newId /\
     input (app w2) = "" /\
     (forall other, other <> newId ->
        JsMap.get other (chats (app w2)) = JsMap.get other (chats (app w))) /\
     JsMap.keys (chats (app w2)) =
       match JsMap.get newId (chats (app w)) with
       | Some _ => JsMap.keys (chats (app w))
       | None => JsMap.keys (chats (app w)) ++ [newId]
       end).
Proof.
  intros newId w1 w2. split; [reflexivity|]. split; [reflexivity|].
  split; [reflexivity|]. split; [reflexivity|].
  destruct (confirmed_by res) eqn:E.
  - destruct (createNewChat_resume_confirmed newId res w1 E) as (Hr & Hc & Hs).
    split; [exact Hr|]. split; [discriminate|]. intros _.
    fold w2 in Hc, Hs. rewrite Hc.
    eexists. split; [apply get_set_same|]. cbn [id title messages].
    split; [reflexivity|]. split; [reflexivity|]. split; [reflexivity|].
    split; [exact Hs|]. split.
    + unfold w2, world_after, createNewChat_resume, confirmed_by in *.
      destruct res as [|ok [data|]]; try discriminate. rewrite E.
      cbn. destruct (innerWidth (app w) <=? 768); reflexivity.
    + split; [intros other Hne; apply get_set_other; auto|].
      apply keys_set.
  - pose proof (createNewChat_resume_refused newId res w1 E) as Hr.
    unfold w2, world_after. rewrite Hr. cbn [fst].
    split; [reflexivity|]. split; [|discriminate]. intros _. repeat split.
Qed.

(** X11.  [deleteChat] does nothing when the user declines, and otherwise
    issues [DELETE /chat/{id}].  A refused answer shows an error and leaves
    the client as it was; a confirmed answer for a conversation that is not
    current removes exactly that conversation, keeps the selection and
    renders. *)
Theorem deleteChat_removes_only_when_confirmed
        (chatId : string) (res : fetch_result) (w : world) :
  run (deleteChat chatId false) w = (w, [], Finished tt) /\
  run (deleteChat chatId true) w =
    (log (EvFetch (DELETE_chat chatId)) w, [],
     Blocked (WFetch (DELETE_chat chatId) (deleteChat_resume chatId))) /\
  (confirmed_by res = false ->
   run (deleteChat_resume chatId res) w =
     (log (EvHook (ShowError "Failed to delete chat")) w, [], Finished tt)) /\
  (confirmed_by res = true ->
   is_current (app w) chatId = false ->
   NoDup (JsMap.keys (chats (app w))) ->
   let w' := rendered (put_app (set_chats (JsMap.delete chatId (chats (app w))) (app w)) w) in
   run (deleteChat_resume chatId res) w = (w', [], Finished tt) /\
   JsMap.get chatId (chats (app w')) = None /\
   (forall other, other <> chatId ->
      JsMap.get other (chats (app w')) = JsMap.get other (chats (app w))) /\
   currentChatId (app w') = currentChatId (app w)).
Proof.
  split; [reflexivity|]. split; [reflexivity|]. split.
  - unfold confirmed_by, deleteChat_resume. destruct res as [|ok [data|]]; try reflexivity.
    intros ->. reflexivity.
  - intros Hc Hcur Hn w'. split; [|split; [|split]].
    + unfold confirmed_by, deleteChat_resume in *.
      destruct res as [|ok [data|]]; try discriminate. rewrite Hc.
      cbn -[switchToChat createNewChat]. unfold is_current in *.
      cbn [currentChatId set_chats]. 
      destruct (currentChatId (app w)) as [cur|]; [rewrite Hcur|]; reflexivity.
    + cbn. apply get_delete_same. exact Hn.
    + intros other Hne. cbn. apply get_delete_other. auto.
    + reflexivity.
Qed.

(** X12.  Deleting the only conversation, which is current: the store is
    emptied and a new conversation is requested.  When the backend confirms
    it, it becomes the only and current conversation; when it refuses, the
    store stays empty and the selection still names the deleted
    conversation. *)
Theorem deleting_last_conversation_creates_one
        (chatId : string) (c : Chat) (res rc : fetch_result) (w : world) :
  chats (app w) = [(chatId, c)] ->
  currentChatId (app w) = Some chatId ->
  confirmed_by res = true ->
  let emptied := put_app (set_chats [] (app w)) w in
  let newId := new_chat_id (clock w (reads w)) (chatCounter (app w)) in
  let w2 := world_after (deleteChat_created newId rc) (create_started emptied) in
  run (deleteChat_resume chatId res) w =
    (create_started emptied, [],
     Blocked (WFetch (POST_chat newId new_title) (deleteChat_created newId))) /\
  run (deleteChat_created newId rc) (create_started emptied) = (w2, [], Finished tt) /\
  (confirmed_by rc = true ->
   exists chat,
     chats (app w2) = [(newId, chat)] /\ messages chat = [] /\
     currentChatId (app w2) = Some newId) /\
  (confirmed_by rc = false ->
   chats (app w2) = [] /\ currentChatId (app w2) = Some chatId).
Proof.
  intros Hs Hcur Hc emptied newId w2.
  assert (Hrun : run (deleteChat_resume chatId res) w =
            (create_started emptied, [],
             Blocked (WFetch (POST_chat newId new_title) (deleteChat_created newId)))).
  { unfold confirmed_by, deleteChat_resume in *.
    destruct res as [|ok [data|]]; try discriminate. rewrite Hc.
    cbn -[switchToChat createNewChat createNewChat_resume]. unfold is_current.
    cbn [currentChatId set_chats chats]. rewrite Hcur, Hs. cbn [JsMap.delete].
    rewrite String.eqb_refl. cbn [JsMap.values map]. reflexivity. }
  split; [exact Hrun|].
  assert (Hret : returns (deleteChat_created newId rc) (create_started emptied)
                   (rendered (world_after (createNewChat_resume newId rc)
                                (create_started emptied))) tt).
  { unfold deleteChat_created. eapply returns_seq; [|reflexivity].
    destruct (confirmed_by rc) eqn:E.
    - apply (createNewChat_resume_confirmed newId rc _ E).
    - unfold returns, world_after. rewrite (createNewChat_resume_refused newId rc _ E).
      reflexivity. }
  assert (Ew2 : w2 = rendered (world_after (createNewChat_resume newId rc)
                                (create_started emptied))).
  { unfold w2. unfold world_after at 1. rewrite Hret. reflexivity. }
  clearbody w2. subst w2.
  split; [exact Hret|]. unfold rendered. cbn [app log]. split.
  - intros E. destruct (createNewChat_resume_confirmed newId rc (create_started emptied) E)
      as (_ & Hch & Hsel).
    rewrite Hch, Hsel. eexists. repeat split.
  - intros E. unfold world_after.
    rewrite (createNewChat_resume_refused newId rc _ E). cbn. split; [reflexivity|exact Hcur].
Qed.

(** X13.  Neither [sendMessage] up to its suspension nor its continuation
    adds or removes a conversation or changes the selection. *)
Theorem send_keeps_conversations_and_selection
        (m : string) (res : fetch_result) (w : world) :
  (JsMap.keys (chats (app (world_after sendMessage w))) = JsMap.keys (chats (app w)) /\
   currentChatId (app (world_after sendMessage w)) = currentChatId (app w)) /\
  (JsMap.keys (chats (app (world_after (sendMessage_resume m res) w)))
     = JsMap.keys (chats (app w)) /\
   currentChatId (app (world_after (sendMessage_resume m res) w))
     = currentChatId (app w)).
Proof.
  assert (Happ : forall ty text w0,
            JsMap.keys (chats (app (world_after (addMessageLocally ty text) w0)))
              = JsMap.keys (chats (app w0)) /\
            currentChatId (app (world_after (addMessageLocally ty text) w0))
              = currentChatId (app w0)).
  { intros ty text w0. rewrite append_world.
    destruct (currentChatId (app w0)) as [cid|] eqn:Hc; [|auto].
    destruct (JsMap.get cid (chats (app w0))); [|auto].
    cbn. rewrite JsMapFacts.keys_update. auto. }
  assert (Htitle : forall a, JsMap.keys (chats (title_applied m a)) = JsMap.keys (chats a) /\
                             currentChatId (title_applied m a) = currentChatId a).
  { intros a. unfold title_applied.
    destruct (currentChatId a) as [cid|] eqn:Hc; [|auto].
    destruct (JsMap.get cid (chats a)) as [c|]; [|auto].
    destruct (2 <? _)%nat; [auto|]. cbn. rewrite JsMapFacts.keys_update. auto. }
  split.
  - destruct (String.eqb_spec (Str.trim (input (app w))) "") as [He|Hne].
    + unfold world_after. rewrite sendMessage_rejects; auto.
    + destruct (isLoading (app w)) eqn:Hl.
      * unfold world_after. rewrite sendMessage_rejects; auto.
      * unfold world_after. rewrite (sendMessage_suspends w Hne Hl). cbn [fst].
        unfold send_started. cbn [app log put_app chats currentChatId set_input].
        destruct (Happ user (Str.trim (input (app w)))
                    (log (EvHook UpdateSendButton)
                       (put_app (set_isLoading true (app w)) w))) as [H1 H2].
        rewrite H1, H2. auto.
  - rewrite resume_world.
    destruct (Happ ai (reply_text res) (log (EvHook HideLoader) w)) as [H1 H2].
    unfold reply_appended.
    destruct (exchange_succeeded res).
    + destruct (Htitle (app (world_after (addMessageLocally ai (reply_text res))
                               (log (EvHook HideLoader) w)))) as [T1 T2].
      rewrite T1, T2, H1, H2. auto.
    + cbn [chats currentChatId set_isLoading]. rewrite H1, H2. auto.
Qed.

(** ** The page: chat list, send button, theme, export, search *)

Section ChatListFacts.

Variable toLocaleDateString : Z -> string.

Lemma chat_entries_returns (current : option string) (cs : list Chat) : forall w,
  exists es w',
    returns (chat_entries toLocaleDateString current cs) w w' es /\
    app w' = app w /\ trace w' = trace w /\
    map entry_id es = map id cs /\
    map entry_active es =
      map (fun c => match current with
                    | Some k => String.eqb (id c) k
                    | None => false
                    end) cs /\
    map entry_snippet es = map last_message_snippet cs.
Proof.
  induction cs as [|c rest IH]; intros w.
  - exists [], w. repeat split.
  - destruct (IH (tick w)) as (es & w' & Hr & Ha & Ht & H1 & H2 & H3).
    eexists (_ :: es), w'. split; [|split; [exact Ha|split; [exact Ht|]]].
    + unfold returns. cbn -[chat_entries]. cbn [chat_entries].
      cbn -[chat_entries]. rewrite (returns_bind _ _ _ _ _ Hr). reflexivity.
    + cbn. rewrite H1, H2, H3. repeat split.
Qed.

Lemma values_ids (m : JsMap.t) :
  wf_store m -> map id (JsMap.values m) = JsMap.keys m.
Proof.
  intros [_ Hi]. unfold JsMap.values, JsMap.keys. rewrite map_map.
  induction Hi as [|[k v] m H _ IH]; cbn in *; [reflexivity|]. now rewrite H, IH.
Qed.

Lemma at_most_one_match (k : string) (l : list string) :
  NoDup l -> (List.length (filter (fun x => String.eqb x k) l) <= 1)%nat.
Proof.
  induction 1 as [|x l Hx Hn IH]; cbn; [lia|].
  destruct (String.eqb_spec x k) as [->|Hne]; [|exact IH]. cbn.
  assert (E : filter (fun x => String.eqb x k) l = []).
  { clear -Hx. induction l as [|y l IH]; cbn; [reflexivity|].
    destruct (String.eqb_spec y k) as [->|_].
    - exfalso. apply Hx. left. reflexivity.
    - apply IH. intros H. apply Hx. right. exact H. }
  rewrite E. cbn. lia.
Qed.

Lemma filter_map_length {A B : Type} (f : A -> B) (p : B -> bool) (l : list A) :
  List.length (filter p (map f l)) = List.length (filter (fun x => p (f x)) l).
Proof.
  induction l as [|x l IH]; cbn; [reflexivity|]. destruct (p (f x)); cbn; now rewrite IH.
Qed.

(** X14.  On a store whose keys are distinct and whose conversations are
    stored under their ids, [renderChatList] leaves the client as it was
    and lists every conversation of the store exactly once, most recently
    updated first; the entry marked active is the one of the current
    conversation, so at most one entry is. *)
Theorem chat_list_is_store_by_recency (w : world) :
  wf_store (chats (app w)) ->
  exists es w',
    run (renderChatList toLocaleDateString) w = (w', [], Finished es) /\
    app w' = app w /\
    map entry_id es = map id (sort_by_recency (JsMap.values (chats (app w)))) /\
    Permutation (map entry_id es) (JsMap.keys (chats (app w))) /\
    (forall e, In e es ->
       (entry_active e = true <-> currentChatId (app w) = Some (entry_id e))) /\
    (List.length (filter entry_active es) <= 1)%nat.
Proof.
  intros Hwf.
  assert (Hgen : exists es w',
            run (renderChatList toLocaleDateString) w = (w', [], Finished es) /\
            app w' = app w /\
            map entry_id es = map id (sort_by_recency (JsMap.values (chats (app w)))) /\
            map entry_active es =
              map (fun c => match currentChatId (app w) with
                            | Some k => String.eqb (id c) k
                            | None => false
                            end)
                  (sort_by_recency (JsMap.values (chats (app w))))).
  { unfold renderChatList.
    cbn -[chat_entries sort_by_recency JsMap.size JsMap.values Nat.eqb].
    destruct (Nat.eqb (JsMap.size (chats (app w))) 0) eqn:E.
    - exists [], w. apply Nat.eqb_eq in E.
      destruct (chats (app w)); [|discriminate]. repeat split.
    - destruct (chat_entries_returns (currentChatId (app w))
                  (sort_by_recency (JsMap.values (chats (app w)))) w)
        as (es & w' & Hr & Ha & _ & H1 & H2 & _).
      exists es, w'. repeat split; assumption. }
  destruct Hgen as (es & w' & Hrun & Ha & Hid & Hact).
  exists es, w'. split; [exact Hrun|]. split; [exact Ha|]. split; [exact Hid|].
  assert (Hperm : Permutation (map entry_id es) (JsMap.keys (chats (app w)))).
  { rewrite Hid, <- (values_ids _ Hwf). apply Permutation_map.
    apply Permutation_sym, sort_by_recency_perm. }
  split; [exact Hperm|].
  assert (Hrel : forall e, In e es ->
            entry_active e = match currentChatId (app w) with
                             | Some k => String.eqb (entry_id e) k
                             | None => false
                             end).
  { clear -Hid Hact. revert Hid Hact.
    generalize (sort_by_recency (JsMap.values (chats (app w)))) as cs.
    induction es as [|e es IH]; intros cs Hid Hact e0 Hin; [destruct Hin|].
    destruct cs as [|c cs]; [discriminate|]. cbn in Hid, Hact.
    injection Hid as Hi Hid. injection Hact as Ha Hact.
    destruct Hin as [<-|Hin]; [rewrite Ha, Hi; reflexivity|].
    eapply IH; eauto. }
  split.
  - intros e He. rewrite (Hrel e He).
    destruct (currentChatId (app w)) as [k|]; [|split; discriminate].
    split.
    + intros H. apply String.eqb_eq in H. now rewrite H.
    + intros [= ->]. apply String.eqb_refl.
  - destruct (currentChatId (app w)) as [k|] eqn:Hc.
    + rewrite (filter_ext_in entry_active (fun e => String.eqb (entry_id e) k)).
      * rewrite <- (filter_map_length entry_id (fun x => String.eqb x k)).
        apply at_most_one_match.
        apply (Permutation_NoDup (Permutation_sym Hperm)). apply Hwf.
      * intros e He. apply (Hrel e He).
    + rewrite (filter_ext_in entry_active (fun _ => false)).
      * clear. induction es; cbn; auto.
      * intros e He. apply (Hrel e He).
Qed.

End ChatListFacts.

Lemma nth_error_last {A : Type} (l : list A) (x : A) :
  nth_error (l ++ [x]) (List.length (l ++ [x]) - 1) = Some x.
Proof.
  rewrite length_app. cbn. replace (List.length l + 1 - 1)%nat with (List.length l) by lia.
  rewrite nth_error_app2 by lia. rewrite Nat.sub_diag. reflexivity.
Qed.

(** X15.  The snippet of a conversation that came from the listing is the
    listing's [last_message], or "No messages yet", and appending a message
    does not change it; the snippet of a conversation created by the client
    is "Start a conversation..." while it is empty and then the first 60
    characters of its last message followed by "...". *)
Theorem snippet_ignores_messages_of_listed_chats
        (row : chat_row) (c0 u0 : Z) (ty : msg_type) (text : string) (t u : Z)
        (k : string) (ms : list Message) (c1 u1 : Z) :
  (last_message_snippet (hydrated_chat row c0 u0) =
     match truthy_value (row_last_message row) with
     | Some m => m
     | None => "No messages yet"
     end /\
   last_message_snippet (appended ty text t u (hydrated_chat row c0 u0)) =
     last_message_snippet (hydrated_chat row c0 u0)) /\
  (last_message_snippet (mkChat k new_title [] c1 u1 None) = "Start a conversation..." /\
   last_message_snippet (appended ty text t u (mkChat k new_title ms c1 u1 None)) =
     (String.substring 0 60 text ++ "...")%string).
Proof.
  split.
  - assert (H : truthy_value (lastMessage (hydrated_chat row c0 u0)) =
                Some match truthy_value (row_last_message row) with
                     | Some m => m
                     | None => "No messages yet"
                     end).
    { cbn. unfold truthy_value at 1.
      destruct (row_last_message row) as [m|]; cbn; [|reflexivity].
      destruct (Str.truthy m) eqn:E; [rewrite E|]; reflexivity. }
    unfold last_message_snippet. cbn [appended set_updatedAt set_messages lastMessage] in *.
    rewrite H. split; reflexivity.
  - split; [reflexivity|].
    unfold last_message_snippet.
    cbn [appended set_updatedAt set_messages lastMessage messages truthy_value].
    rewrite nth_error_last. rewrite length_app. cbn [List.length].
    destruct (Nat.ltb_spec 0 (List.length ms + 1)); [reflexivity|lia].
Qed.

Lemma length_zero_empty (s : string) : Nat.eqb (String.length s) 0 = true <-> s = "".
Proof.
  destruct s; cbn; split; intros H; try reflexivity; discriminate.
Qed.

(** X16.  [updateSendButton] disables the button exactly when
    [sendMessage] would return without doing anything.  Whenever
    [updateCharacterCount] disables it, so does [updateSendButton]; but on a
    non-empty input of white space alone, with no exchange in flight,
    [updateCharacterCount] enables a button whose click does nothing. *)
Theorem send_button_matches_send_guard (w : world) :
  (updateSendButton_disabled (app w) = true <->
   run sendMessage w = (w, [], Finished tt)) /\
  (count_disabled (updateCharacterCount (app w)) = true ->
   updateSendButton_disabled (app w) = true) /\
  (input (app w) <> "" -> Str.trim (input (app w)) = "" ->
   isLoading (app w) = false ->
   count_disabled (updateCharacterCount (app w)) = false /\
   run sendMessage w = (w, [], Finished tt)).
Proof.
  unfold updateSendButton_disabled, updateCharacterCount. cbn [count_disabled].
  split; [|split].
  - split.
    + intros H. apply sendMessage_rejects. apply orb_true_iff in H.
      destruct H as [H|H]; [left; apply length_zero_empty; exact H|right; exact H].
    + intros H.
      destruct (String.eqb_spec (Str.trim (input (app w))) "") as [E|E].
      * rewrite E. reflexivity.
      * destruct (isLoading (app w)) eqn:Hl; [apply orb_true_r|].
        rewrite (sendMessage_suspends w E Hl) in H. discriminate.
  - intros H. apply orb_true_iff in H. destruct H as [H|H].
    + apply length_zero_empty in H. rewrite H. reflexivity.
    + rewrite H. apply orb_true_r.
  - intros Hne Ht Hl. split.
    + rewrite Hl. destruct (input (app w)); [contradiction|reflexivity].
    + apply sendMessage_rejects. left. exact Ht.
Qed.

(** X17.  The theme chosen by [toggleTheme] is the one [setupTheme]
    restores on the next load; a further toggle changes the class of the
    body, three toggles are one, and the label of the button names the
    theme the page had before the toggle. *)
Theorem theme_survives_reload (p : theme_page) :
  setupTheme (toggleTheme p) = toggleTheme p /\
  toggleTheme (toggleTheme (toggleTheme p)) = toggleTheme p /\
  body_class (toggleTheme (toggleTheme p)) <> body_class (toggleTheme p) /\
  snd (updateThemeToggleText (toggleTheme p)) =
    (if classList_contains "dark-mode" (body_class p)
     then "Dark Mode" else "Light Mode").
Proof.
  unfold toggleTheme, setupTheme, updateThemeToggleText.
  cbn [body_class stored_theme].
  destruct (classList_contains "dark-mode" (body_class p));
    repeat split; try reflexivity; vm_compute; discriminate.
Qed.

Lemma string_map_length (f : ascii -> ascii) (s : string) :
  String.length (string_map f s) = String.length s.
Proof. induction s; cbn; auto. Qed.

Lemma string_map_append (f : ascii -> ascii) (s1 s2 : string) :
  string_map f (s1 ++ s2)%string = (string_map f s1 ++ string_map f s2)%string.
Proof. induction s1; cbn; [reflexivity|]. now rewrite IHs1. Qed.

(** X18.  The title in the name of an exported file has the length of the
    conversation's title and only letters, digits and underscores; a title
    of letters and digits is kept as it is, and cleaning twice is cleaning
    once.  [exportChat] offers nothing for an unknown id and otherwise a
    file named after the cleaned title, holding the title, the messages and
    the time of the export. *)
Theorem export_file_name_is_safe (chatId : string) (w : world) :
  (forall s,
     String.length (sanitize_title s) = String.length s /\
     all_chars (fun c => is_alnum c || Ascii.eqb c "_")%bool (sanitize_title s) = true /\
     sanitize_title (sanitize_title s) = sanitize_title s /\
     (all_chars is_alnum s = true -> sanitize_title s = s)) /\
  match JsMap.get chatId (chats (app w)) with
  | None => run (exportChat chatId) w = (w, [], Finished None)
  | Some chat =>
      run (exportChat chatId) w =
        (tick w, [],
         Finished (Some (mkExport
           ("coworker-chat-" ++ sanitize_title (title chat) ++ ".json")%string
           (title chat) (messages chat) (clock w (reads w)))))
  end.
Proof.
  split.
  - intros s. unfold sanitize_title. split; [apply string_map_length|].
    split; [|split].
    + induction s as [|c s IH]; cbn; [reflexivity|]. rewrite IH.
      destruct (is_alnum c) eqn:E; [rewrite E|]; reflexivity.
    + induction s as [|c s IH]; cbn; [reflexivity|]. rewrite IH.
      destruct (is_alnum c) eqn:E; [rewrite E|]; reflexivity.
    + induction s as [|c s IH]; cbn; [reflexivity|]. intros H.
      apply andb_true_iff in H. destruct H as [H1 H2]. rewrite H1, IH; auto.
  - unfold exportChat. cbn. destruct (JsMap.get chatId (chats (app w))); reflexivity.
Qed.

Lemma prefix_empty (s : string) : String.prefix "" s = true.
Proof. destruct s; reflexivity. Qed.

Lemma prefix_append (q1 q2 s : string) :
  String.prefix (q1 ++ q2) s = true -> String.prefix q1 s = true.
Proof.
  revert s. induction q1 as [|a q1 IH]; intros s H; [apply prefix_empty|].
  destruct s as [|b s]; cbn in *; [discriminate|].
  destruct (Ascii.ascii_dec a b); [|discriminate]. apply IH. exact H.
Qed.

Lemma prefix_refl (s : string) : String.prefix s s = true.
Proof.
  induction s as [|a s IH]; cbn; [reflexivity|].
  destruct (Ascii.ascii_dec a a); [exact IH|contradiction].
Qed.

Lemma includes_empty (s : string) : includes s "" = true.
Proof. destruct s; reflexivity. Qed.

Lemma includes_refl (s : string) : includes s s = true.
Proof. destruct s; cbn -[String.prefix]; rewrite prefix_refl; reflexivity. Qed.

Lemma includes_append (s q1 q2 : string) :
  includes s (q1 ++ q2) = true -> includes s q1 = true.
Proof.
  induction s as [|a s IH]; cbn -[String.prefix]; intros H;
    apply orb_true_iff in H; apply orb_true_iff; destruct H as [H|H].
  - left. eapply prefix_append; eauto.
  - discriminate.
  - left. eapply prefix_append; eauto.
  - right. apply IH. exact H.
Qed.

(** X19.  For a conversation of the store, over text whose characters are
    code units below 256: the empty query displays its entry, so does its
    own title in any letter case, and whenever a query displays it every
    prefix of that query does. *)
Theorem search_narrows_as_the_query_grows (a : App) (chatId : string) (chat : Chat) :
  JsMap.get chatId (chats a) = Some chat ->
  search_display a "" chatId = Some true /\
  (forall q, toLowerCase q = toLowerCase (title chat) ->
             search_display a q chatId = Some true) /\
  (forall q1 q2,
     search_display a (q1 ++ q2) chatId = Some true ->
     search_display a q1 chatId = Some true).
Proof.
  intros Hg. unfold search_display. rewrite Hg. split; [|split].
  - cbn [toLowerCase string_map]. rewrite includes_empty. reflexivity.
  - intros q ->. rewrite includes_refl. reflexivity.
  - intros q1 q2 H. injection H as H. f_equal.
    unfold toLowerCase in *. rewrite string_map_append in H.
    apply orb_true_iff in H. apply orb_true_iff. destruct H as [H|H].
    + left. eapply includes_append; eauto.
    + right. apply existsb_exists in H. destruct H as (m & Hin & Hm).
      apply existsb_exists. exists m. split; [exact Hin|].
      eapply includes_append; eauto.
Qed.

(** ** Instances of the further properties *)

Lemma at_most_one_exchange_in_flight_witness :
  let c := exec [CallInit; TypeInput "hi"; CallSend; CallSend]
                (boot tick_clock 1024) in
  isLoading (app (cworld c)) = true /\
  (List.length (filter is_ask (in_flight c)) <= 1)%nat /\
  in_flight c <> [].
Proof.
  intros c. split; [reflexivity|].
  destruct (at_most_one_exchange_in_flight tick_clock 1024
              [CallInit; TypeInput "hi"; CallSend; CallSend]) as (H1 & _ & H3).
  split; [exact H1|]. apply H3. reflexivity.
Defined.

Lemma bootstrap_selects_most_recent_witness :
  listing_of listing3 = Some rows3 /\
  rows3 <> [] /\
  Forall (fun r => row_id r <> "") rows3 /\
  let c := exec [CallInit; Settle 0 0 Rejected; Settle 0 0 listing3]
                (boot tick_clock 1024) in
  exists first,
    In first (JsMap.values (chats (app (cworld c)))) /\
    (forall x, In x (JsMap.values (chats (app (cworld c)))) ->
               updatedAt x <= updatedAt first) /\
    currentChatId (app (cworld c)) = Some (id first) /\
    in_flight c = [GET_chat_history (id first)] /\
    trace (cworld c) =
      [EvHook ShowAppLoading; EvFetch GET_user_memory; EvFetch GET_chats;
       EvFetch (GET_chat_history (id first))] /\
    let c' := settle 0 0 Rejected c in
    in_flight c' = [] /\
    currentChatId (app (cworld c')) = Some (id first) /\
    isInitialized (app (cworld c')) = true /\
    trace (cworld c') =
      trace (cworld c) ++
      [EvHook UpdateChatTitle; EvHook RenderChatList; EvHook RenderMessages;
       EvHook HideAppLoading] /\
    (history_of Rejected = None -> chats (app (cworld c')) = chats (app (cworld c))).
Proof.
  assert (Hids : Forall (fun r => row_id r <> "") rows3).
  { repeat constructor; discriminate. }
  split; [reflexivity|]. split; [discriminate|]. split; [exact Hids|].
  apply (bootstrap_selects_most_recent tick_clock 1024 Rejected listing3 rows3 Rejected).
  - reflexivity.
  - discriminate.
  - exact Hids.
Defined.

Lemma bootstrap_without_chats_creates_one_witness :
  listing_of Rejected = None /\
  let newId := new_chat_id (tick_clock 0%nat) 1 in
  let c := exec [CallInit; Settle 0 0 Rejected; Settle 0 0 Rejected]
                (boot tick_clock 1024) in
  in_flight c = [POST_chat newId new_title] /\
  chats (app (cworld c)) = [] /\
  currentChatId (app (cworld c)) = None /\
  let c' := settle 0 0 (ok_json json_success) c in
  in_flight c' = [] /\
  isInitialized (app (cworld c')) = true /\
  (confirmed_by (ok_json json_success) = true ->
   exists chat,
     chats (app (cworld c')) = [(newId, chat)] /\
     id chat = newId /\ messages chat = [] /\
     currentChatId (app (cworld c')) = Some newId) /\
  (confirmed_by (ok_json json_success) = false ->
   chats (app (cworld c')) = [] /\ currentChatId (app (cworld c')) = None).
Proof.
  split; [reflexivity|].
  apply (bootstrap_without_chats_creates_one tick_clock 1024 Rejected Rejected
           (ok_json json_success)).
  left. reflexivity.
Defined.

Lemma new_chat_id_injective_witness :
  new_chat_id 1000 1 = "chat_1000_1" /\
  new_chat_id 1000 1 = new_chat_id 1000 1 /\
  (1000 = 1000 /\ 1 = 1).
Proof.
  split; [reflexivity|]. split; [reflexivity|].
  exact (new_chat_id_injective 1000 1 1000 1 eq_refl).
Defined.

Lemma listing_replaces_store_or_leaves_it_witness :
  exists w',
    run (loadChatsFromBackend_resume listing3) world3 = (w', [], Finished true) /\
    (forall k, In k (JsMap.keys (chats (app w'))) <-> In k (map row_id rows3)) /\
    NoDup (JsMap.keys (chats (app w'))) /\
    Forall (fun kv => id (snd kv) = fst kv /\ messages (snd kv) = [])
           (chats (app w')) /\
    currentChatId (app w') = currentChatId (app world3) /\
    trace w' = trace world3.
Proof.
  exact (proj2 (listing_replaces_store_or_leaves_it listing3 world3)).
Defined.

Lemma history_load_replaces_messages_only_witness :
  let res := ok_json (json_history [hello_row]) in
  "b" <> "" /\
  JsMap.get "b" (chats (app world3)) = Some chat_b /\
  history_of res = Some [hello_row] /\
  run (loadChatHistory "b") world3 =
    (log (EvFetch (GET_chat_history "b")) world3, [],
     Blocked (WFetch (GET_chat_history "b") (loadChatHistory_resume "b"))) /\
  (exists ms,
     JsMap.get "b" (chats (app (loaded "b" res world3))) = Some (set_messages ms chat_b) /\
     map what ms = map row_what [hello_row]) /\
  JsMap.get "a" (chats (app (loaded "b" res world3))) = JsMap.get "a" (chats (app world3)).
Proof.
  intros res.
  destruct (history_load_replaces_messages_only "b" res world3)
    as (_ & H2 & _ & _ & _ & _ & H7 & _ & H9).
  split; [discriminate|]. split; [reflexivity|]. split; [reflexivity|].
  split; [apply H2; discriminate|]. split.
  - apply (H9 chat_b [hello_row]); reflexivity.
  - apply H7. discriminate.
Defined.

Lemma createNewChat_adds_only_when_confirmed_witness :
  let res := ok_json json_success in
  let newId := new_chat_id (clock world3 (reads world3)) (chatCounter (app world3)) in
  let w2 := world_after (createNewChat_resume newId res) (create_started world3) in
  confirmed_by res = true /\
  confirmed_by Rejected = false /\
  (exists chat,
     JsMap.get newId (chats (app w2)) = Some chat /\
     id chat = newId /\ title chat = new_title /\ messages chat = [] /\
     currentChatId (app w2) = Some newId /\
     input (app w2) = "" /\
     (forall other, other <> newId ->
        JsMap.get other (chats (app w2)) = JsMap.get other (chats (app world3))) /\
     JsMap.keys (chats (app w2)) =
       match JsMap.get newId (chats (app world3)) with
       | Some _ => JsMap.keys (chats (app world3))
       | None => JsMap.keys (chats (app world3)) ++ [newId]
       end) /\
  chats (app (world_after (createNewChat_resume newId Rejected) (create_started world3)))
    = chats (app world3).
Proof.
  intros res newId w2.
  split; [reflexivity|]. split; [reflexivity|]. split.
  - destruct (createNewChat_adds_only_when_confirmed res world3)
      as (_ & _ & _ & _ & _ & _ & H). apply H. reflexivity.
  - destruct (createNewChat_adds_only_when_confirmed Rejected world3)
      as (_ & _ & _ & _ & _ & H & _). apply H. reflexivity.
Defined.

Lemma deleteChat_removes_only_when_confirmed_witness :
  let res := ok_json json_success in
  let w' := rendered (put_app (set_chats (JsMap.delete "b" (chats (app world3)))
                                         (app world3)) world3) in
  confirmed_by res = true /\
  is_current (app world3) "b" = false /\
  NoDup (JsMap.keys (chats (app world3))) /\
  run (deleteChat_resume "b" res) world3 = (w', [], Finished tt) /\
  JsMap.get "b" (chats (app w')) = None /\
  (forall other, other <> "b" ->
     JsMap.get other (chats (app w')) = JsMap.get other (chats (app world3))) /\
  currentChatId (app w') = currentChatId (app world3).
Proof.
  intros res w'.
  assert (Hn : NoDup (JsMap.keys (chats (app world3)))).
  { vm_compute. repeat constructor; cbn; intuition discriminate. }
  split; [reflexivity|]. split; [reflexivity|]. split; [exact Hn|].
  destruct (deleteChat_removes_only_when_confirmed "b" res world3) as (_ & _ & _ & H).
  apply H; [reflexivity|reflexivity|exact Hn].
Defined.

Lemma deleting_last_conversation_creates_one_witness :
  let res := ok_json json_success in
  let emptied := put_app (set_chats [] (app world1)) world1 in
  let newId := new_chat_id (clock world1 (reads world1)) (chatCounter (app world1)) in
  let w2 := world_after (deleteChat_created newId res) (create_started emptied) in
  chats (app world1) = [("a", chat_a)] /\
  currentChatId (app world1) = Some "a" /\
  confirmed_by res = true /\
  run (deleteChat_resume "a" res) world1 =
    (create_started emptied, [],
     Blocked (WFetch (POST_chat newId new_title) (deleteChat_created newId))) /\
  exists chat,
    chats (app w2) = [(newId, chat)] /\ messages chat = [] /\
    currentChatId (app w2) = Some newId.
Proof.
  intros res emptied newId w2.
  split; [reflexivity|]. split; [reflexivity|]. split; [reflexivity|].
  destruct (deleting_last_conversation_creates_one "a" chat_a res res world1
              eq_refl eq_refl eq_refl) as (H1 & _ & H3 & _).
  split; [exact H1|]. apply H3. reflexivity.
Defined.

Lemma chat_list_is_store_by_recency_witness :
  wf_store (chats (app world3)) /\
  exists es w',
    run (renderChatList (fun _ => "date")) world3 = (w', [], Finished es) /\
    app w' = app world3 /\
    map entry_id es = map id (sort_by_recency (JsMap.values (chats (app world3)))) /\
    Permutation (map entry_id es) (JsMap.keys (chats (app world3))) /\
    (forall e, In e es ->
       (entry_active e = true <-> currentChatId (app world3) = Some (entry_id e))) /\
    (List.length (filter entry_active es) <= 1)%nat.
Proof.
  assert (Hwf : wf_store (chats (app world3))).
  { split.
    - vm_compute. repeat constructor; cbn; intuition discriminate.
    - vm_compute. repeat constructor. }
  split; [exact Hwf|].
  apply (chat_list_is_store_by_recency (fun _ => "date") world3 Hwf).
Defined.

Lemma send_button_matches_send_guard_witness :
  let w := typing "  " world3 in
  input (app w) <> "" /\
  Str.trim (input (app w)) = "" /\
  isLoading (app w) = false /\
  count_disabled (updateCharacterCount (app w)) = false /\
  run sendMessage w = (w, [], Finished tt) /\
  updateSendButton_disabled (app w) = true.
Proof.
  intros w.
  assert (H1 : input (app w) <> "") by (vm_compute; discriminate).
  destruct (send_button_matches_send_guard w) as (Hiff & _ & H).
  destruct (H H1 eq_refl eq_refl) as [Hc Hr].
  split; [exact H1|]. split; [reflexivity|]. split; [reflexivity|].
  split; [exact Hc|]. split; [exact Hr|]. apply Hiff. exact Hr.
Defined.

Lemma export_file_name_is_safe_witness :
  all_chars is_alnum "Report2024" = true /\
  sanitize_title "Report2024" = "Report2024" /\
  String.length (sanitize_title "My chat: v1.0") = String.length "My chat: v1.0".
Proof.
  destruct (export_file_name_is_safe "a" world3) as [H _].
  split; [reflexivity|]. split.
  - apply (proj2 (proj2 (proj2 (H "Report2024")))). reflexivity.
  - apply (proj1 (H "My chat: v1.0")).
Defined.

Lemma search_narrows_as_the_query_grows_witness :
  JsMap.get "a" (chats (app world3)) = Some chat_a /\
  search_display (app world3) "" "a" = Some true /\
  (forall q1 q2,
     search_display (app world3) (q1 ++ q2) "a" = Some true ->
     search_display (app world3) q1 "a" = Some true).
Proof.
  split; [reflexivity|].
  destruct (search_narrows_as_the_query_grows (app world3) "a" chat_a eq_refl)
    as (H1 & _ & H3).
  split; [exact H1|exact H3].
Defined.
